(** * pooldap: the channel-backed LDAP connection pool

    A shallow embedding of [channelPool] and [PoolConn] (conn.go and the
    channel pool file) and of the calls they make on Go channels, on the
    connection factory and on the raw connections.

    Every method is a function from a state to an outcome and a new state.
    The outcome says how the Go call ends: it returns a value, it panics,
    or it is suspended on a channel operation that cannot proceed in the
    state it runs in.  The mutex of the pool is not modelled: a method is
    run from a state, and a state stands for whatever the other
    goroutines have left behind. *)

From Stdlib Require Import String List ZArith Bool Lia.
From Stdlib Require DecimalString.
Import ListNotations.

(** ** Raw connections, errors, log entries *)

(** A raw connection is identified by a number; [ldap.Client] is an
    interface value, so it may be nil: [None]. *)
Definition ConnId := nat.
Definition Client := option ConnId.

(** Go [error] values met by the pool: the error of a checkout on a closed
    pool; [errors.New] of a literal; [ErrFill cause], which is
    [errors.New("factory is not able to fill the pool: " + cause.Error())];
    an [*ldap.Error] with its [ResultCode]; any other error of a
    collaborator. *)
Inductive error : Type :=
| PoolClosedError
| ErrorString (msg : string)
| ErrFill (cause : error)
| LdapError (ResultCode : Z)
| OtherError (msg : string).

(** Modelled from the spec: [ErrClosed], the package variable that [Get]
    returns on a closed pool ([PoolClosed] in the spec), is declared in a
    file of the package that is not among the sources. *)
Definition ErrClosed : error := PoolClosedError.

(** [ldap.IsErrorWithCode] of gopkg.in/ldap.v2: false on a nil error and on
    an error that is not an [*ldap.Error], otherwise the comparison of the
    result code. *)
Definition IsErrorWithCode (err : option error) (desiredResultCode : Z) : bool :=
  match err with
  | Some (LdapError rc) => Z.eqb rc desiredResultCode
  | _ => false
  end.

Inductive PoolType : Type := SharedPool | BindPool.

Inductive Level : Type := DebugLevel | InfoLevel | ErrorLevel.

(** A log entry keeps the level and the format string of the call. *)
Definition LogEntry := (Level * string)%type.

(** ** Outcomes *)

Inductive PanicKind : Type :=
| NilDereference
| SendOnClosedChannel
| CloseOfClosedChannel.

Inductive Outcome (A : Type) : Type :=
| Ret (a : A)
| Panic (why : PanicKind)
| Block.

Arguments Ret {A} a.
Arguments Panic {A} why.
Arguments Block {A}.

(** ** Buffered channels *)

Record chan : Type := mkChan {
  buf : list Client;
  cap : nat;
  closed : bool
}.

(** [make(chan ldap.Client, n)] *)
Definition chan_make (n : nat) : chan :=
  {| buf := []; cap := n; closed := false |}.

(** [<-ch]: the oldest buffered value; on an empty channel the zero value
    when the channel is closed, and no progress when it is open. *)
Definition chan_recv (ch : chan) : Outcome Client * chan :=
  match buf ch with
  | x :: rest => (Ret x, {| buf := rest; cap := cap ch; closed := closed ch |})
  | [] => if closed ch then (Ret None, ch) else (Block, ch)
  end.

(** [ch <- x] *)
Definition chan_send (x : Client) (ch : chan) : Outcome unit * chan :=
  if closed ch then (Panic SendOnClosedChannel, ch)
  else if Nat.ltb (length (buf ch)) (cap ch)
       then (Ret tt, {| buf := buf ch ++ [x]; cap := cap ch; closed := false |})
       else (Block, ch).

(** [select { case ch <- x: (true) default: (false) }] *)
Definition chan_try_send (x : Client) (ch : chan) : Outcome bool * chan :=
  if closed ch then (Panic SendOnClosedChannel, ch)
  else if Nat.ltb (length (buf ch)) (cap ch)
       then (Ret true, {| buf := buf ch ++ [x]; cap := cap ch; closed := false |})
       else (Ret false, ch).

(** [close(ch)] *)
Definition chan_close (ch : chan) : Outcome unit * chan :=
  if closed ch then (Panic CloseOfClosedChannel, ch)
  else (Ret tt, {| buf := buf ch; cap := cap ch; closed := true |}).

(** ** The pool, the handle and the state *)

(** [*Client], the owner of the pool: nil or a pointer. *)
Definition ClientPtr := option nat.

(** [PoolFactory].  The factory opens connections, so its result is not a
    function of its arguments alone: the last argument is the number of
    invocations made before this one. *)
Definition PoolFactory := ClientPtr -> PoolType -> nat -> Client * option error.

(** The pool allocates one channel, in [NewChannelPool].  [c.conns] and
    the local copies of it held by [Get] and [Close] are nil or a
    reference to that channel, whose contents are [store] below. *)
Inductive chanref : Type := the_chan.

Record channelPool : Type := mkPool {
  conns : option chanref;
  aliveChecks : bool;
  factory : option PoolFactory;
  closeAt : list Z;
  parentClient : ClientPtr;
  poolType : PoolType;
  initialConnections : Z;
  maxConnections : Z;
  refreshInterval : Z
}.

(** What lies outside the pool struct: the channel, the number of factory
    invocations so far, the raw connections closed so far (in order), the
    connections probed by [isAlive] so far, the answer a probe gets, and
    the log. *)
Record World : Type := mkWorld {
  store : chan;
  factory_calls : nat;
  disposed : list ConnId;
  probes : list ConnId;
  alive : ConnId -> bool;
  logs : list LogEntry
}.

Record State : Type := mkState {
  pool : channelPool;
  world : World
}.

(** [PoolConn]; the back reference [c] is the pool of the state, and
    [pc_closeAt] is its field [closeAt]. *)
Record PoolConn : Type := mkPoolConn {
  Conn : Client;
  unusable : bool;
  pc_closeAt : list Z
}.

(** ** The monad of Go calls *)

Definition M (A : Type) : Type := State -> Outcome A * State.

Definition ret {A : Type} (a : A) : M A := fun s => (Ret a, s).

Definition bind {A B : Type} (m : M A) (k : A -> M B) : M B :=
  fun s =>
    match m s with
    | (Ret a, s') => k a s'
    | (Panic why, s') => (Panic why, s')
    | (Block, s') => (Block, s')
    end.

Definition panic {A : Type} (why : PanicKind) : M A := fun s => (Panic why, s).

Definition gets {A : Type} (f : State -> A) : M A := fun s => (Ret (f s), s).

Definition upd_world (f : World -> World) : M unit :=
  fun s => (Ret tt, {| pool := pool s; world := f (world s) |}).

Definition upd_pool (f : channelPool -> channelPool) : M unit :=
  fun s => (Ret tt, {| pool := f (pool s); world := world s |}).

Declare Scope go_scope.
Delimit Scope go_scope with go.
Notation "x <- m ;; k" := (bind m (fun x => k))
  (at level 61, m at next level, right associativity) : go_scope.
Notation "m ;; k" := (bind m (fun _ => k))
  (at level 61, right associativity) : go_scope.
Open Scope go_scope.

(** ** Updates of single fields *)

Definition with_store (ch : chan) (w : World) : World :=
  {| store := ch; factory_calls := factory_calls w; disposed := disposed w;
     probes := probes w; alive := alive w; logs := logs w |}.

Definition with_factory_calls (n : nat) (w : World) : World :=
  {| store := store w; factory_calls := n; disposed := disposed w;
     probes := probes w; alive := alive w; logs := logs w |}.

Definition with_disposed (l : list ConnId) (w : World) : World :=
  {| store := store w; factory_calls := factory_calls w; disposed := l;
     probes := probes w; alive := alive w; logs := logs w |}.

Definition with_probes (l : list ConnId) (w : World) : World :=
  {| store := store w; factory_calls := factory_calls w; disposed := disposed w;
     probes := l; alive := alive w; logs := logs w |}.

Definition with_logs (l : list LogEntry) (w : World) : World :=
  {| store := store w; factory_calls := factory_calls w; disposed := disposed w;
     probes := probes w; alive := alive w; logs := l |}.

Definition with_conns (r : option chanref) (c : channelPool) : channelPool :=
  {| conns := r; aliveChecks := aliveChecks c; factory := factory c;
     closeAt := closeAt c; parentClient := parentClient c;
     poolType := poolType c; initialConnections := initialConnections c;
     maxConnections := maxConnections c; refreshInterval := refreshInterval c |}.

Definition with_factory (f : option PoolFactory) (c : channelPool) : channelPool :=
  {| conns := conns c; aliveChecks := aliveChecks c; factory := f;
     closeAt := closeAt c; parentClient := parentClient c;
     poolType := poolType c; initialConnections := initialConnections c;
     maxConnections := maxConnections c; refreshInterval := refreshInterval c |}.

Definition with_aliveChecks (on : bool) (c : channelPool) : channelPool :=
  {| conns := conns c; aliveChecks := on; factory := factory c;
     closeAt := closeAt c; parentClient := parentClient c;
     poolType := poolType c; initialConnections := initialConnections c;
     maxConnections := maxConnections c; refreshInterval := refreshInterval c |}.

Definition with_unusable (b : bool) (p : PoolConn) : PoolConn :=
  {| Conn := Conn p; unusable := b; pc_closeAt := pc_closeAt p |}.

(** A channel operation on the channel a reference points to. *)
Definition on_chan {A : Type} (r : chanref) (op : chan -> Outcome A * chan) : M A :=
  fun s =>
    let (o, ch) := op (store (world s)) in
    (o, {| pool := pool s; world := with_store ch (world s) |}).

(** ** Collaborators *)

(** [GetLogger] of the owning [Client]: reads [lc.logger], so a nil receiver panics. *)
Definition Client_GetLogger (lc : ClientPtr) : M unit :=
  match lc with
  | None => panic NilDereference
  | Some _ => ret tt
  end.

(** [c.GetLogger()] *)
Definition GetLogger : M unit :=
  lc <- gets (fun s => parentClient (pool s)) ;;
  Client_GetLogger lc.

(** A call on a logger. *)
Definition emit (lvl : Level) (msg : string) : M unit :=
  upd_world (fun w => with_logs (logs w ++ [(lvl, msg)]) w).

(** [c.GetLogger().Xxx(msg)] and [p.GetLogger().Xxx(msg)] *)
Definition logf (lvl : Level) (msg : string) : M unit :=
  GetLogger ;; emit lvl msg.

(** [conn.Close()] on a raw connection: a method call on an interface
    value, which panics on nil. *)
Definition conn_Close (conn : Client) : M unit :=
  match conn with
  | None => panic NilDereference
  | Some id => upd_world (fun w => with_disposed (disposed w ++ [id]) w)
  end.

(** [isAlive]: a base-object search on the connection; alive when the
    search returns no error. *)
Definition isAlive (conn : Client) : M bool :=
  match conn with
  | None => panic NilDereference
  | Some id =>
      upd_world (fun w => with_probes (probes w ++ [id]) w) ;;
      gets (fun s => alive (world s) id)
  end.

(** ** Methods of the pool *)

(** [wrapConn] *)
Definition wrapConn (conn : Client) (closeAt : list Z) : PoolConn :=
  {| Conn := conn; unusable := false; pc_closeAt := closeAt |}.

(** [c.factory(c.parentClient, c.poolType)]: a call of a nil function
    value panics; otherwise the invocation is counted. *)
Definition call_factory : M (Client * option error) :=
  f <- gets (fun s => factory (pool s)) ;;
  match f with
  | None => panic NilDereference
  | Some fn =>
      lc <- gets (fun s => parentClient (pool s)) ;;
      pt <- gets (fun s => poolType (pool s)) ;;
      n <- gets (fun s => factory_calls (world s)) ;;
      upd_world (with_factory_calls (S n)) ;;
      ret (fn lc pt n)
  end.

(** [NewConn]; the handle pointer is nil exactly when an error is returned. *)
Definition NewConn : M (option PoolConn * option error) :=
  r <- call_factory ;;
  match snd r with
  | Some err =>
      logf ErrorLevel "failed to create NewConn for pooldap.channelPool %s" ;;
      ret (None, Some err)
  | None =>
      ca <- gets (fun s => closeAt (pool s)) ;;
      ret (Some (wrapConn (fst r) ca), None)
  end.

(** [getConns] *)
Definition getConns : M (option chanref) := gets (fun s => conns (pool s)).

(** [Len]: [len] of a nil channel is 0. *)
Definition Len : M Z :=
  r <- getConns ;;
  match r with
  | None => ret 0%Z
  | Some _ => gets (fun s => Z.of_nat (length (buf (store (world s)))))
  end.

(** [AliveChecks] *)
Definition AliveChecks (on : bool) : M unit := upd_pool (with_aliveChecks on).

(** [pConn.Conn], a field read through a handle pointer. *)
Definition field_Conn (p : option PoolConn) : M Client :=
  match p with
  | None => panic NilDereference
  | Some h => ret (Conn h)
  end.

(** The part of [put] that runs under the lock, with a connection that is
    the argument or its replacement. *)
Definition put_locked (conn : Client) : M unit :=
  r <- gets (fun s => conns (pool s)) ;;
  match r with
  | None => conn_Close conn
  | Some ch =>
      sent <- on_chan ch (chan_try_send conn) ;;
      if sent then ret tt else conn_Close conn
  end.

(** [put] *)
Definition put (conn : Client) : M unit :=
  match conn with
  | None =>
      logf DebugLevel "ldap connection is nil. recreating" ;;
      r <- NewConn ;;
      match snd r with
      | Some _ => ret tt
      | None => conn' <- field_Conn (fst r) ;; put_locked conn'
      end
  | Some _ => put_locked conn
  end.

(** The loop of [Close], [for conn := range conns { conn.Close() }], on a
    closed channel holding [n] values. *)
Fixpoint drain (ch : chanref) (n : nat) : M unit :=
  match n with
  | O => ret tt
  | S k => conn <- on_chan ch chan_recv ;; conn_Close conn ;; drain ch k
  end.

(** [Close] of the pool *)
Definition Close : M unit :=
  r <- gets (fun s => conns (pool s)) ;;
  upd_pool (with_conns None) ;;
  upd_pool (with_factory None) ;;
  match r with
  | None => ret tt
  | Some ch =>
      on_chan ch chan_close ;;
      n <- gets (fun s => length (buf (store (world s)))) ;;
      drain ch n
  end.

(** The [select] of [Get], entered with the non-nil reference that
    [getConns] returned. *)
Definition Get_select (ch : chanref) : M (option PoolConn * option error) :=
  conn <- on_chan ch chan_recv ;;
  match conn with
  | None => ret (None, Some ErrClosed)
  | Some _ =>
      ac <- gets (fun s => aliveChecks (pool s)) ;;
      ok <- (if negb ac then ret true else isAlive conn) ;;
      if ok then
        ca <- gets (fun s => closeAt (pool s)) ;;
        ret (Some (wrapConn conn ca), None)
      else
        logf InfoLevel "connection dead\n" ;;
        conn_Close conn ;;
        NewConn
  end.

(** [Get] *)
Definition Get : M (option PoolConn * option error) :=
  r <- getConns ;;
  match r with
  | None => ret (None, Some ErrClosed)
  | Some ch => Get_select ch
  end.

(** ** Methods of the handle *)

(** [MarkUnusable]: a write through the receiver, the new handle is returned. *)
Definition MarkUnusable (p : option PoolConn) : M PoolConn :=
  match p with
  | None => panic NilDereference
  | Some h => ret (with_unusable true h)
  end.

(** The unusable branch of [PoolConn.Close]. *)
Definition Close_unusable (h : PoolConn) : M unit :=
  logf InfoLevel "Closing unusable connection" ;;
  match Conn h with
  | None => ret tt
  | Some _ => conn_Close (Conn h)
  end ;;
  r <- NewConn ;;
  conn <- field_Conn (fst r) ;;
  put conn.

(** [Close] of the handle *)
Definition PoolConn_Close (p : option PoolConn) : M unit :=
  match p with
  | None => panic NilDereference
  | Some h => if unusable h then Close_unusable h else put (Conn h)
  end.

(** The loop of [AutoClose] over the codes still to be tried. *)
Fixpoint AutoClose_range (h : PoolConn) (err : option error) (codes : list Z) : M PoolConn :=
  match codes with
  | [] => ret h
  | code :: rest =>
      if IsErrorWithCode err code
      then
        logf DebugLevel "Marking LDAP Connection as Unusable due to code %d" ;;
        ret (with_unusable true h)
      else AutoClose_range h err rest
  end.

(** The body of [AutoClose], without the deferred function. *)
Definition AutoClose_body (p : option PoolConn) (err : option error) : M PoolConn :=
  match p with
  | None => panic NilDereference
  | Some h => AutoClose_range h err (pc_closeAt h)
  end.

(** [AutoClose]: the deferred function recovers a panic of the body and
    logs it on the package logger; the result is the handle the receiver
    points to afterwards. *)
Definition AutoClose (p : option PoolConn) (err : option error) : M (option PoolConn) :=
  fun s =>
    match AutoClose_body p err s with
    | (Ret h, s') => (Ret (Some h), s')
    | (Panic _, s') =>
        (emit DebugLevel "rescued panic in (p *PoolConn) AutoClose %s" ;; ret p) s'
    | (Block, s') => (Block, s')
    end.

(** ** Construction and refill *)

(** The loop of [NewChannelPool] with [n] invocations left; the pool under
    construction is the pool of the state, so the [factory] argument is
    its [factory] field and [c.conns] is the channel just made. *)
Fixpoint fill (n : nat) : M (option error) :=
  match n with
  | O => ret None
  | S k =>
      r <- call_factory ;;
      match snd r with
      | Some err => Close ;; ret (Some (ErrFill err))
      | None =>
          on_chan the_chan (chan_send (fst r)) ;;
          fill k
      end
  end.

(** [NewChannelPool], run in a world; the pool pointer of the result is
    nil exactly when an error is returned, and otherwise the pool is the
    one of the final state. *)
Definition NewChannelPool (initialCap maxCap : Z) (pt : PoolType)
    (fn : PoolFactory) (client : ClientPtr) (ca : list Z) (interval : Z)
    (w : World) : Outcome (option channelPool * option error) * World :=
  if ((initialCap <? 0) || (maxCap <=? 0) || (initialCap >? maxCap))%Z
  then (Ret (None, Some (ErrorString "invalid capacity settings")), w)
  else
    let c := {| conns := Some the_chan; aliveChecks := false;
                factory := Some fn; closeAt := ca; parentClient := client;
                poolType := pt; initialConnections := initialCap;
                maxConnections := maxCap; refreshInterval := interval |} in
    let s0 := {| pool := c; world := with_store (chan_make (Z.to_nat maxCap)) w |} in
    match fill (Z.to_nat initialCap) s0 with
    | (Ret (Some err), s') => (Ret (None, Some err), world s')
    | (Ret None, s') => (Ret (Some (pool s'), None), world s')
    | (Panic why, s') => (Panic why, world s')
    | (Block, s') => (Block, world s')
    end.

(** One iteration of the inner loop of [RefillPool]. *)
Definition refill_once : M unit :=
  r <- NewConn ;;
  match snd r with
  | Some _ =>
      h <- MarkUnusable (fst r) ;;
      PoolConn_Close (Some h) ;;
      logf ErrorLevel "could not refresh connection"
  | None =>
      conn <- field_Conn (fst r) ;;
      put conn
  end.

(** [for i := c.Len(); i < c.initialConnections; i++] with [n] iterations left. *)
Fixpoint refill_loop (n : nat) : M unit :=
  match n with
  | O => ret tt
  | S k => refill_once ;; refill_loop k
  end.

(** One pass of the outer loop of [RefillPool], after the sleep. *)
Definition refill_tick : M unit :=
  logf InfoLevel "refreshing LDAP connections" ;;
  i <- Len ;;
  target <- gets (fun s => initialConnections (pool s)) ;;
  refill_loop (Z.to_nat (target - i)).

(** [RefillPool], cut after [ticks] passes of its endless loop. *)
Fixpoint RefillPool (ticks : nat) : M unit :=
  match ticks with
  | O => ret tt
  | S k => refill_tick ;; RefillPool k
  end.

(** ** States *)

(** The pool is open: [c.conns] is not nil. *)
Definition is_open (s : State) : Prop := conns (pool s) = Some the_chan.

(** What [Close] makes sure of before it closes the channel: a pool whose
    [conns] is not nil has an open channel and a factory. *)
Definition chan_inv (s : State) : Prop :=
  is_open s ->
  closed (store (world s)) = false /\ factory (pool s) <> None.

(** The pool has been closed and its channel drained. *)
Definition is_closed (s : State) : Prop :=
  conns (pool s) = None /\
  closed (store (world s)) = true /\
  buf (store (world s)) = [].

(** The pool has an owner to take its logger from. *)
Definition has_logger (s : State) : Prop := parentClient (pool s) <> None.

(** No nil in the store. *)
Definition store_nonnil (s : State) : Prop :=
  Forall (fun c : Client => c <> None) (buf (store (world s))).

(** The store has room for one more connection. *)
Definition has_room (s : State) : bool :=
  Nat.ltb (length (buf (store (world s)))) (cap (store (world s))).

(** A factory that returns a connection whenever it returns no error. *)
Definition factory_sound (fn : PoolFactory) : Prop :=
  forall lc pt n, snd (fn lc pt n) = None -> fst (fn lc pt n) <> None.

(** The state after a raw connection is closed. *)
Definition dispose (id : ConnId) (s : State) : State :=
  {| pool := pool s;
     world := with_disposed (disposed (world s) ++ [id]) (world s) |}.

(** The state after a connection is appended to the store. *)
Definition stored (conn : Client) (s : State) : State :=
  {| pool := pool s;
     world := with_store
                {| buf := buf (store (world s)) ++ [conn];
                   cap := cap (store (world s));
                   closed := false |} (world s) |}.

(** The state after a line is logged. *)
Definition logged (lvl : Level) (msg : string) (s : State) : State :=
  {| pool := pool s;
     world := with_logs (logs (world s) ++ [(lvl, msg)]) (world s) |}.

(** The state after one more factory invocation. *)
Definition invoked (s : State) : State :=
  {| pool := pool s;
     world := with_factory_calls (S (factory_calls (world s))) (world s) |}.

(** The result of the next invocation of the factory of the pool. *)
Definition next_result (fn : PoolFactory) (s : State) : Client * option error :=
  fn (parentClient (pool s)) (poolType (pool s)) (factory_calls (world s)).

(** The state a non-nil connection is released into: disposed when the
    pool is closed or the store is at capacity, stored otherwise. *)
Definition released (id : ConnId) (s : State) : State :=
  match conns (pool s) with
  | None => dispose id s
  | Some _ => if has_room s then stored (Some id) s else dispose id s
  end.

(** The state after [Get] has pulled [id] from the store, found it dead
    and closed it. *)
Definition stale_dropped (id : ConnId) (s : State) : State :=
  {| pool := pool s;
     world :=
       {| store := {| buf := tl (buf (store (world s)));
                      cap := cap (store (world s));
                      closed := closed (store (world s)) |};
          factory_calls := factory_calls (world s);
          disposed := disposed (world s) ++ [id];
          probes := probes (world s) ++ [id];
          alive := alive (world s);
          logs := logs (world s) ++ [(InfoLevel, "connection dead\n"%string)] |} |}.

(** The result of [NewConn] for a factory result. *)
Definition handle_or_error (r : Client * option error) (codes : list Z)
  : option PoolConn * option error :=
  match snd r with
  | Some e => (None, Some e)
  | None => (Some (wrapConn (fst r) codes), None)
  end.

(** The connections among a list of interface values. *)
Definition conn_ids (l : list Client) : list ConnId :=
  flat_map (fun c : Client => match c with Some id => [id] | None => [] end) l.

(** What invocations [from], ..., [from + n - 1] of a factory return. *)
Definition created (fn : PoolFactory) (lc : ClientPtr) (pt : PoolType)
    (from n : nat) : list Client :=
  map (fun j => fst (fn lc pt j)) (seq from n).

(** The state [Close] leaves behind on an open pool: no channel and no
    factory in the pool, the channel closed and empty, every connection it
    held closed. *)
Definition shut (s : State) : State :=
  {| pool := with_factory None (with_conns None (pool s));
     world :=
       with_disposed
         (disposed (world s) ++ conn_ids (buf (store (world s))))
         (with_store {| buf := []; cap := cap (store (world s)); closed := true |}
                     (world s)) |}.

(** The state in which the construction loop ends when its invocation
    number [i] (from 0) is the first to fail: the pool closed, and closed
    with it the connections of the store and those made by invocations
    0, ..., [i - 1]. *)
Definition fill_failed (fn : PoolFactory) (i : nat) (s : State) : State :=
  {| pool := with_factory None (with_conns None (pool s));
     world :=
       {| store := {| buf := []; cap := cap (store (world s)); closed := true |};
          factory_calls := factory_calls (world s) + S i;
          disposed :=
            disposed (world s) ++
            conn_ids (buf (store (world s)) ++
                      created fn (parentClient (pool s)) (poolType (pool s))
                              (factory_calls (world s)) i);
          probes := probes (world s);
          alive := alive (world s);
          logs := logs (world s) |} |}.

(** An error signal matches a set of codes. *)
Definition matches (err : option error) (codes : list Z) : Prop :=
  exists code : Z, In code codes /\ IsErrorWithCode err code = true.

(** The state after the wrapped connection of a handle is closed, when
    there is one. *)
Definition wrapped_disposed (h : PoolConn) (s : State) : State :=
  match Conn h with
  | None => s
  | Some id => dispose id s
  end.

(** A call that closes connections and never reopens one: the connections
    closed before it are still recorded, in the same order, after it. *)
Definition only_disposes {A : Type} (m : M A) : Prop :=
  forall s : State,
    exists l : list ConnId,
      disposed (world (snd (m s))) = disposed (world s) ++ l.

(** ** Operations on a handle *)

(** The methods of [PoolConn]. *)
Inductive HandleOp : Type :=
| OpStart
| OpClose
| OpSimpleBind
| OpBind
| OpMarkUnusable
| OpAutoClose (err : option error)
| OpSetTimeout
| OpAdd
| OpDel
| OpModify
| OpCompare
| OpPasswordModify
| OpSearch
| OpSearchWithPaging
| OpGetLogger.

(** [p.Conn.Xxx(...)]: a method call on the wrapped interface value, which
    panics on nil; what the call does is the business of the raw
    connection, the handle and the pool are only read. *)
Definition delegate (h : PoolConn) : M unit :=
  match Conn h with
  | None => panic NilDereference
  | Some _ => ret tt
  end.

(** A call that does not write the handle. *)
Definition keep (h : PoolConn) (m : M unit) (s : State)
  : Outcome unit * (PoolConn * State) :=
  let (o, s') := m s in (o, (h, s')).

(** One method call on a handle: the outcome, the handle and the state
    afterwards. *)
Definition handle_step (op : HandleOp) (h : PoolConn) (s : State)
  : Outcome unit * (PoolConn * State) :=
  match op with
  | OpMarkUnusable =>
      match MarkUnusable (Some h) s with
      | (Ret h', s') => (Ret tt, (h', s'))
      | (Panic why, s') => (Panic why, (h, s'))
      | (Block, s') => (Block, (h, s'))
      end
  | OpAutoClose err =>
      match AutoClose (Some h) err s with
      | (Ret (Some h'), s') => (Ret tt, (h', s'))
      | (Ret None, s') => (Ret tt, (h, s'))
      | (Panic why, s') => (Panic why, (h, s'))
      | (Block, s') => (Block, (h, s'))
      end
  | OpClose => keep h (PoolConn_Close (Some h)) s
  | OpGetLogger => keep h GetLogger s
  | _ => keep h (delegate h) s
  end.

(** A sequence of method calls on a handle, whatever their outcomes. *)
Fixpoint handle_run (ops : list HandleOp) (h : PoolConn) (s : State)
  : PoolConn * State :=
  match ops with
  | [] => (h, s)
  | op :: rest =>
      let hs := snd (handle_step op h s) in
      handle_run rest (fst hs) (snd hs)
  end.

(** Store occupancy does not exceed capacity. *)
Definition within_cap (s : State) : Prop :=
  length (buf (store (world s))) <= cap (store (world s)).

(** A call keeps a property of states, however it ends. *)
Definition preserves (P : State -> Prop) {A : Type} (m : M A) : Prop :=
  forall s : State, P s -> P (snd (m s)).

(** A property of the pool struct and of the channel alone. *)
Definition about_pool_and_store (P : State -> Prop) : Prop :=
  forall s s' : State,
    pool s = pool s' -> store (world s) = store (world s') -> P s -> P s'.

(** The calls that the pool and its handles offer. *)
Inductive Call : Type :=
| CallGet
| CallPut (conn : Client)
| CallClose
| CallLen
| CallAliveChecks (on : bool)
| CallNewConn
| CallRelease (p : option PoolConn)
| CallAutoClose (p : option PoolConn) (err : option error)
| CallRefill (ticks : nat).

(** A call run for its effect. *)
Definition run_call (c : Call) : M unit :=
  match c with
  | CallGet => Get ;; ret tt
  | CallPut conn => put conn
  | CallClose => Close
  | CallLen => Len ;; ret tt
  | CallAliveChecks on => AliveChecks on
  | CallNewConn => NewConn ;; ret tt
  | CallRelease p => PoolConn_Close p
  | CallAutoClose p err => AutoClose p err ;; ret tt
  | CallRefill ticks => RefillPool ticks
  end.

(** A sequence of calls, one after the other, whatever their outcomes. *)
Fixpoint run_calls (cs : list Call) (s : State) : State :=
  match cs with
  | [] => s
  | c :: rest => run_calls rest (snd (run_call c s))
  end.

(** The channel has capacity [n] and holds no more than [n] connections. *)
Definition bounded_by (n : nat) (s : State) : Prop :=
  cap (store (world s)) = n /\ length (buf (store (world s))) <= n.

(** Whether a connection pulled by [Get] is handed out as it is: liveness
    checks are off, or the probe of the connection succeeds. *)
Definition passes_check (s : State) (id : ConnId) : bool :=
  negb (aliveChecks (pool s)) || alive (world s) id.

(** * The client of the package and its two pools *)

Module ClientLayer.

(** ** Configuration and collaborators *)

(** [LdapConfig] *)
Record LdapConfig : Type := mkLdapConfig {
  Host : string;
  Port : Z;
  Attributes : list string;
  AttributeMap : list (string * string);
  EmailAttributes : list string;
  Base : string;
  BindDN : string;
  BindPassword : string;
  GroupFilter : string;
  GroupNameAttribute : string;
  GroupMemberAttribute : string;
  ServerName : string;
  UserFilter : string;
  Uid : string;
  UseSSL : bool;
  InsecureSkipVerify : bool;
  SkipTLS : bool;
  LogLevel : string
}.

(** A [tls.Certificate], opaque. *)
Definition Certificate := nat.

(** The fields of [tls.Config] that the factory sets. *)
Record TLSConfig : Type := mkTLSConfig {
  tls_InsecureSkipVerify : bool;
  tls_ServerName : string;
  tls_Certificates : list Certificate
}.

(** [Client], the struct of the package ([Client] above is the interface
    [ldap.Client]).  A pool field is a [Pool] interface value: nil, or the
    pool struct it points to.  The logger is as in [Client_GetLogger]. *)
Record ClientT : Type := mkClient {
  Config : LdapConfig;
  ClientCertificates : list Certificate;
  searchPool : option channelPool;
  bindPool : option channelPool
}.

(** What the factory asks of the network and of the server. *)
Inductive NetEvent : Type :=
| EvDial (address : string)
| EvStartTLS (conn : ConnId) (config : TLSConfig)
| EvDialTLS (address : string) (config : TLSConfig)
| EvBind (conn : ConnId) (dn password : string).

(** The answers to the connection attempt of the factory invocation with
    the given number: the error of [ldap.Dial], of [StartTLS] and of
    [ldap.DialTLS], nil on success.  The connection that invocation [n]
    opens is connection [n]. *)
Record Network : Type := mkNetwork {
  Dial : string -> nat -> option error;
  StartTLS : TLSConfig -> nat -> option error;
  DialTLS : string -> TLSConfig -> nat -> option error
}.

(** [fmt.Sprintf("%s:%d", host, port)] *)
Definition address_of (cfg : LdapConfig) : string :=
  (Host cfg ++ ":" ++ DecimalString.NilZero.string_of_int (Z.to_int (Port cfg)))%string.

Definition nonempty (s : string) : bool := negb (String.eqb s "").

(** The end of [clientPoolFactory], once connection [n] is open: a bind
    for the shared pool when both credentials are set, its result thrown
    away, and the connection returned. *)
Definition bind_if_shared (cfg : LdapConfig) (pt : PoolType) (n : nat)
    (trace : list NetEvent) : (Client * option error) * list NetEvent :=
  match pt with
  | SharedPool =>
      if nonempty (BindDN cfg) && nonempty (BindPassword cfg)
      then ((Some n, None), trace ++ [EvBind n (BindDN cfg) (BindPassword cfg)])
      else ((Some n, None), trace)
  | BindPool => ((Some n, None), trace)
  end.

(** [clientPoolFactory] on a non-nil client, as invocation number [n]:
    what it returns and what it asked for, in order. *)
Definition clientPoolFactory_run (net : Network) (lc : ClientT) (pt : PoolType)
    (n : nat) : (Client * option error) * list NetEvent :=
  let cfg := Config lc in
  let address := address_of cfg in
  if negb (UseSSL cfg) then
    match Dial net address n with
    | Some err => ((None, Some err), [EvDial address])
    | None =>
        if negb (SkipTLS cfg) then
          let config := {| tls_InsecureSkipVerify := true;
                           tls_ServerName := "";
                           tls_Certificates := [] |} in
          match StartTLS net config n with
          | Some err => ((None, Some err), [EvDial address; EvStartTLS n config])
          | None => bind_if_shared cfg pt n [EvDial address; EvStartTLS n config]
          end
        else bind_if_shared cfg pt n [EvDial address]
    end
  else
    let config := {| tls_InsecureSkipVerify := InsecureSkipVerify cfg;
                     tls_ServerName := ServerName cfg;
                     tls_Certificates :=
                       if Nat.ltb 0 (length (ClientCertificates lc))
                       then ClientCertificates lc else [] |} in
    match DialTLS net address config n with
    | Some err => ((None, Some err), [EvDialTLS address config])
    | None => bind_if_shared cfg pt n [EvDialTLS address config]
    end.

(** [clientPoolFactory] as the pool calls it, with the pointer to the
    client [lc]. *)
Definition clientPoolFactory (net : Network) (lc : ClientT) : PoolFactory :=
  fun _ pt n => fst (clientPoolFactory_run net lc pt n).

(** ** The state of a client *)

(** The client, the channels of its two pools, and what the pools share:
    the invocations of the factory, the connections closed, the probes and
    the log ([store] of [outside] is not used). *)
Record Sys : Type := mkSys {
  client : ClientT;
  searchStore : chan;
  bindStore : chan;
  outside : World
}.

Inductive WhichPool : Type := OfSearch | OfBind.

Definition pool_field (k : WhichPool) (c : ClientT) : option channelPool :=
  match k with
  | OfSearch => searchPool c
  | OfBind => bindPool c
  end.

Definition store_field (k : WhichPool) (sys : Sys) : chan :=
  match k with
  | OfSearch => searchStore sys
  | OfBind => bindStore sys
  end.

(** The state of one pool, cut out of the state of the client. *)
Definition view (k : WhichPool) (p : channelPool) (sys : Sys) : State :=
  {| pool := p; world := with_store (store_field k sys) (outside sys) |}.

(** The state of the client after a call on one of its pools. *)
Definition write_back (k : WhichPool) (s : State) (sys : Sys) : Sys :=
  match k with
  | OfSearch =>
      {| client := {| Config := Config (client sys);
                      ClientCertificates := ClientCertificates (client sys);
                      searchPool := Some (pool s);
                      bindPool := bindPool (client sys) |};
         searchStore := store (world s);
         bindStore := bindStore sys;
         outside := world s |}
  | OfBind =>
      {| client := {| Config := Config (client sys);
                      ClientCertificates := ClientCertificates (client sys);
                      searchPool := searchPool (client sys);
                      bindPool := Some (pool s) |};
         searchStore := searchStore sys;
         bindStore := store (world s);
         outside := world s |}
  end.

(** Calls of the client layer. *)
Definition CM (A : Type) : Type := Sys -> Outcome A * Sys.

Definition cret {A : Type} (a : A) : CM A := fun sys => (Ret a, sys).

Definition cbind {A B : Type} (m : CM A) (k : A -> CM B) : CM B :=
  fun sys =>
    match m sys with
    | (Ret a, sys') => k a sys'
    | (Panic why, sys') => (Panic why, sys')
    | (Block, sys') => (Block, sys')
    end.

Definition cpanic {A : Type} (why : PanicKind) : CM A := fun sys => (Panic why, sys).

Definition cgets {A : Type} (f : Sys -> A) : CM A := fun sys => (Ret (f sys), sys).

Declare Scope client_scope.
Delimit Scope client_scope with client.
Notation "x <- m ;; k" := (cbind m (fun x => k))
  (at level 61, m at next level, right associativity) : client_scope.

(** A method call through a pool field of the client, or on a handle of
    that pool; a method call on a nil interface value panics. *)
Definition on_pool {A : Type} (k : WhichPool) (m : M A) : CM A :=
  fun sys =>
    match pool_field k (client sys) with
    | None => (Panic NilDereference, sys)
    | Some p =>
        let (o, s) := m (view k p sys) in
        (o, write_back k s sys)
    end.

(** [defer conn.Close()] around the rest of a function.  The rest returns
    its results and the handle as [AutoClose] left it; when it panics the
    handle is as it was, [AutoClose] being its only writer.  The deferred
    release runs in both cases; its panic is the panic of the function. *)
Definition deferred_Close {A : Type} (k : WhichPool) (conn : option PoolConn)
    (rest : CM (A * option PoolConn)) : CM A :=
  fun sys =>
    match rest sys with
    | (Ret (a, conn'), sys1) =>
        match on_pool k (PoolConn_Close conn') sys1 with
        | (Ret _, sys2) => (Ret a, sys2)
        | (Panic why, sys2) => (Panic why, sys2)
        | (Block, sys2) => (Block, sys2)
        end
    | (Panic why, sys1) =>
        match on_pool k (PoolConn_Close conn) sys1 with
        | (Ret _, sys2) => (Panic why, sys2)
        | (Panic why', sys2) => (Panic why', sys2)
        | (Block, sys2) => (Block, sys2)
        end
    | (Block, sys1) => (Block, sys1)
    end.

(** ** The directory *)

Inductive SearchScope : Type := ScopeBaseObject | ScopeSingleLevel | ScopeWholeSubtree.

Inductive DerefAliases : Type :=
| NeverDerefAliases | DerefInSearching | DerefFindingBaseObj | DerefAlways.

(** [ldap.SearchRequest], as [ldap.NewSearchRequest] fills it (without
    controls). *)
Record SearchRequest : Type := NewSearchRequest {
  BaseDN : string;
  Scope : SearchScope;
  Deref : DerefAliases;
  SizeLimit : Z;
  TimeLimit : Z;
  TypesOnly : bool;
  Filter : string;
  RequestAttributes : list string
}.

(** An [*ldap.Entry]: its DN and what [GetAttributeValue] answers. *)
Record Entry : Type := mkEntry {
  DN : string;
  GetAttributeValue : string -> string
}.

(** What the code takes from elsewhere: [fmt.Sprintf] of a format and one
    string, [ldap.EscapeFilter], and the answers of the server to a search
    and to a bind on a connection. *)
Record Directory : Type := mkDirectory {
  Sprintf : string -> string -> string;
  EscapeFilter : string -> string;
  Search : ConnId -> SearchRequest -> list Entry + error;
  BindAs : ConnId -> string -> string -> option error
}.

(** [conn.Search(request)] on a handle: [p.Conn.Search(request)]. *)
Definition conn_Search (dir : Directory) (p : option PoolConn)
    (request : SearchRequest) : CM (list Entry + error) :=
  match p with
  | None => cpanic NilDereference
  | Some h =>
      match Conn h with
      | None => cpanic NilDereference
      | Some id => cret (Search dir id request)
      end
  end.

(** [conn.Bind(username, password)] on a handle. *)
Definition conn_Bind (dir : Directory) (p : option PoolConn)
    (username password : string) : CM (option error) :=
  match p with
  | None => cpanic NilDereference
  | Some h =>
      match Conn h with
      | None => cpanic NilDereference
      | Some id => cret (BindAs dir id username password)
      end
  end.

(** [map[string]interface{}] and [map[string]string] with the strings the
    code stores in them. *)
Definition StringMap := string -> option string.

Definition no_entries : StringMap := fun _ => None.

(** [m[key] = value] *)
Definition map_set (key value : string) (m : StringMap) : StringMap :=
  fun k => if String.eqb k key then Some value else m k.

(** The package errors. *)
Definition ErrNotFound : error := ErrorString "object not found".
Definition ErrNotUnique : error := ErrorString "too many entries returned".
Definition ErrDnNotFound : error := ErrorString "user 'dn' not found in attributes".
Definition ErrAttributeNotFound : error := ErrorString "attribute not found".

(** [errors.Wrap(ErrAttributeNotFound, message)], whose text is the
    message, a colon and the text of the cause. *)
Definition Wrap_ErrAttributeNotFound (message : string) : error :=
  ErrorString (message ++ ": " ++ "attribute not found")%string.

(** The codes that [InitClientPool] gives to both pools. *)
Definition closeAt_codes : list Z := [200%Z].

Local Open Scope client_scope.

(** ** The operations of the client *)

(** The map that [GetUser] fills from the one entry found. *)
Definition user_attributes (cfg : LdapConfig) (e : Entry) : StringMap :=
  map_set "dn" (DN e)
    (fold_left (fun m attr => map_set attr (GetAttributeValue e attr) m)
               (Attributes cfg) no_entries).

(** The request of [GetUser]. *)
Definition user_request (dir : Directory) (cfg : LdapConfig) (username : string)
  : SearchRequest :=
  NewSearchRequest (Base cfg) ScopeWholeSubtree NeverDerefAliases 0 0 false
    (Sprintf dir (UserFilter cfg) username)
    (Attributes cfg ++ ["dn"%string]).

(** [GetUser]: the results are the named results [userAttributes] and
    [err]; the three cases on the entries are [len < 1], [len > 1] and
    [Entries[0]] of a list of length 1. *)
Definition GetUser (dir : Directory) (username : string)
  : CM (StringMap * option error) :=
  cfg <- cgets (fun sys => Config (client sys)) ;;
  r <- on_pool OfSearch Get ;;
  deferred_Close OfSearch (fst r)
    (match snd r with
     | Some _ =>
         conn' <- on_pool OfSearch (AutoClose (fst r) (snd r)) ;;
         cret ((no_entries, snd r), conn')
     | None =>
         sr <- conn_Search dir (fst r) (user_request dir cfg username) ;;
         match sr with
         | inr e =>
             conn' <- on_pool OfSearch (AutoClose (fst r) (Some e)) ;;
             cret ((no_entries, Some e), conn')
         | inl [] => cret ((no_entries, Some ErrNotFound), fst r)
         | inl [e0] => cret ((user_attributes cfg e0, None), fst r)
         | inl (_ :: _ :: _) => cret ((no_entries, Some ErrNotUnique), fst r)
         end
     end).

(** [Authenticate]: the results are [valid], [userAttributes] and [err]. *)
Definition Authenticate (dir : Directory) (username password : string)
  : CM (bool * StringMap * option error) :=
  u <- GetUser dir username ;;
  match snd u with
  | Some e => cret (false, fst u, Some e)
  | None =>
      b <- on_pool OfBind Get ;;
      deferred_Close OfBind (fst b)
        (match snd b with
         | Some e => cret ((false, fst u, Some e), fst b)
         | None =>
             match fst u "dn"%string with
             | None => cret ((false, fst u, Some ErrDnNotFound), fst b)
             | Some dn =>
                 berr <- conn_Bind dir (fst b) dn password ;;
                 match berr with
                 | Some e =>
                     conn' <- on_pool OfBind (AutoClose (fst b) (Some e)) ;;
                     cret ((false, fst u, Some e), conn')
                 | None => cret ((true, fst u, None), fst b)
                 end
             end
         end)
  end.

(** The request of [GetUserGroups] for the value of the member attribute. *)
Definition groups_request (dir : Directory) (cfg : LdapConfig) (member : string)
  : SearchRequest :=
  NewSearchRequest (Base cfg) ScopeWholeSubtree NeverDerefAliases 0 0 false
    (Sprintf dir (GroupFilter cfg) (EscapeFilter dir member))
    [GroupNameAttribute cfg].

(** The map that [GetUserGroups] fills: name to DN, a later entry
    replacing an earlier one of the same name. *)
Definition groups_of (cfg : LdapConfig) (entries : list Entry) : StringMap :=
  fold_left
    (fun m entry => map_set (GetAttributeValue entry (GroupNameAttribute cfg)) (DN entry) m)
    entries no_entries.

(** [GetUserGroups]: the results are [groups], nil until the map is made,
    and [err]. *)
Definition GetUserGroups (dir : Directory) (username : string)
  : CM (option StringMap * option error) :=
  cfg <- cgets (fun sys => Config (client sys)) ;;
  u <- GetUser dir username ;;
  match snd u with
  | Some e => cret (None, Some e)
  | None =>
      match fst u (GroupMemberAttribute cfg) with
      | None => cret (None, Some (Wrap_ErrAttributeNotFound (GroupMemberAttribute cfg)))
      | Some member =>
          r <- on_pool OfSearch Get ;;
          deferred_Close OfSearch (fst r)
            (match snd r with
             | Some _ =>
                 conn' <- on_pool OfSearch (AutoClose (fst r) (snd r)) ;;
                 cret ((None, snd r), conn')
             | None =>
                 sr <- conn_Search dir (fst r) (groups_request dir cfg member) ;;
                 match sr with
                 | inr e =>
                     conn' <- on_pool OfSearch (AutoClose (fst r) (Some e)) ;;
                     cret ((None, Some e), conn')
                 | inl entries => cret ((Some (groups_of cfg entries), None), fst r)
                 end
             end)
      end
  end.

(** [InitClientPool], up to the two [go] statements that start the refill
    loops: the pointer [c] that the pools keep is [Some 0]. *)
Definition InitClientPool (net : Network)
    (initialSearchConns maxSearchConns initialBindConns maxBindConns : Z)
    (interval : Z) : CM (option error) :=
  fun sys =>
    let fn := clientPoolFactory net (client sys) in
    match NewChannelPool initialSearchConns maxSearchConns SharedPool fn
                         (Some 0) closeAt_codes interval (outside sys) with
    | (Ret (sp, None), w1) =>
        match NewChannelPool initialBindConns maxBindConns BindPool fn
                             (Some 0) closeAt_codes interval w1 with
        | (Ret (bp, None), w2) =>
            (Ret None,
             {| client := {| Config := Config (client sys);
                             ClientCertificates := ClientCertificates (client sys);
                             searchPool := sp;
                             bindPool := bp |};
                searchStore := store w1;
                bindStore := store w2;
                outside := w2 |})
        | (Ret (_, Some err), w2) =>
            (Ret (Some err),
             {| client := client sys; searchStore := searchStore sys;
                bindStore := bindStore sys; outside := w2 |})
        | (Panic why, w2) =>
            (Panic why,
             {| client := client sys; searchStore := searchStore sys;
                bindStore := bindStore sys; outside := w2 |})
        | (Block, w2) =>
            (Block,
             {| client := client sys; searchStore := searchStore sys;
                bindStore := bindStore sys; outside := w2 |})
        end
    | (Ret (_, Some err), w1) =>
        (Ret (Some err),
         {| client := client sys; searchStore := searchStore sys;
            bindStore := bindStore sys; outside := w1 |})
    | (Panic why, w1) =>
        (Panic why,
         {| client := client sys; searchStore := searchStore sys;
            bindStore := bindStore sys; outside := w1 |})
    | (Block, w1) =>
        (Block,
         {| client := client sys; searchStore := searchStore sys;
            bindStore := bindStore sys; outside := w1 |})
    end.

(** [NewClient], in a world: the client it returns, whether or not the
    pools could be made, is the client of the final state. *)
Definition NewClient (net : Network) (config : LdapConfig)
    (initialSearchConns maxSearchConns initialBindConns maxBindConns : Z)
    (interval : Z) (w : World) : Outcome (option error) * Sys :=
  InitClientPool net initialSearchConns maxSearchConns
    initialBindConns maxBindConns interval
    {| client := {| Config := config; ClientCertificates := [];
                    searchPool := None; bindPool := None |};
       searchStore := chan_make 0;
       bindStore := chan_make 0;
       outside := w |}.

End ClientLayer.

(** ** Sample worlds and factories *)

Module Samples.

Definition w0 : World :=
  {| store := chan_make 0; factory_calls := 0; disposed := [];
     probes := []; alive := fun _ => true; logs := [] |}.

(** The n-th invocation opens connection n. *)
Definition dial_ok : PoolFactory := fun _ _ n => (Some n, None).

(** Invocations succeed until the k-th (counted from 0), which fails
    together with all later ones. *)
Definition dial_until (k : nat) : PoolFactory :=
  fun _ _ n =>
    if Nat.ltb n k then (Some n, None)
    else (None, Some (OtherError "dial tcp: connection refused")).

(** The codes [InitClientPool] configures. *)
Definition codes : list Z := [200%Z].

(** A state from the result of a successful [NewChannelPool]. *)
Definition state_of (r : Outcome (option channelPool * option error) * World)
    (dflt : State) : State :=
  match r with
  | (Ret (Some c, _), w) => {| pool := c; world := w |}
  | _ => dflt
  end.

Definition no_pool : State :=
  {| pool := {| conns := None; aliveChecks := false; factory := None;
                closeAt := []; parentClient := None; poolType := SharedPool;
                initialConnections := 0; maxConnections := 0;
                refreshInterval := 0 |};
     world := w0 |}.

(** [NewChannelPool(initialCap, maxCap, SharedPool, fn, client, {200}, 30)] *)
Definition pool_of (initialCap maxCap : Z) (fn : PoolFactory) : State :=
  state_of (NewChannelPool initialCap maxCap SharedPool fn (Some 0%nat) codes 30 w0)
           no_pool.

(** A pool of capacity 1 whose connection was checked out and replaced
    by a refill pass: the store is at capacity while a handle is out. *)
Definition refilled : State :=
  snd ((Get ;; refill_tick) (pool_of 1 1 dial_ok)).

(** The handle that checkout returned. *)
Definition handle_out : PoolConn := wrapConn (Some 0%nat) codes.

(** A world in which every probe fails. *)
Definition w_dead : World :=
  {| store := chan_make 0; factory_calls := 0; disposed := [];
     probes := []; alive := fun _ => false; logs := [] |}.

(** A pool with one stored connection and liveness checks on. *)
Definition stale_pool (fn : PoolFactory) : State :=
  snd (AliveChecks true
         (state_of (NewChannelPool 1 1 SharedPool fn (Some 0%nat) codes 30 w_dead)
                   no_pool)).

(** A pool of one connection that is checked out, with a factory that
    fails from then on. *)
Definition starved : State := snd (Get (pool_of 1 1 (dial_until 1))).

(** [NewChannelPool(1, 1, SharedPool, dial_ok, nil, {200}, 30)]: a pool
    made with a nil client, which has no logger to give. *)
Definition orphan : State :=
  state_of (NewChannelPool 1 1 SharedPool dial_ok None codes 30 w0) no_pool.

(** The same pool in a world where every probe fails, with liveness
    checks on. *)
Definition orphan_stale : State :=
  snd (AliveChecks true
         (state_of (NewChannelPool 1 1 SharedPool dial_ok None codes 30 w_dead)
                   no_pool)).

End Samples.

(** ** A sample client *)

Module ClientSamples.

Import ClientLayer.

(** The configuration of the tests of the package, with StartTLS. *)
Definition config : LdapConfig :=
  {| Host := "xubu"; Port := 389;
     Attributes := ["cn"%string; "uid"%string];
     AttributeMap := []; EmailAttributes := [];
     Base := "dc=planetexpress,dc=com";
     BindDN := "cn=admin,dc=planetexpress,dc=com";
     BindPassword := "GoodNewsEveryone";
     GroupFilter := "(member=%s)";
     GroupNameAttribute := "cn";
     GroupMemberAttribute := "dn";
     ServerName := ""; UserFilter := "(uid=%s)"; Uid := "uid";
     UseSSL := false; InsecureSkipVerify := false; SkipTLS := false;
     LogLevel := "info" |}.

(** Every connection attempt succeeds. *)
Definition net_ok : Network :=
  {| Dial := fun _ _ => None;
     StartTLS := fun _ _ => None;
     DialTLS := fun _ _ _ => None |}.

(** Connection attempts succeed until the k-th (from 0). *)
Definition net_until (k : nat) : Network :=
  {| Dial := fun _ n =>
       if Nat.ltb n k then None
       else Some (OtherError "dial tcp: connection refused");
     StartTLS := fun _ _ => None;
     DialTLS := fun _ _ _ => None |}.

Definition fry : Entry :=
  {| DN := "cn=Philip J. Fry,ou=people,dc=planetexpress,dc=com";
     GetAttributeValue := fun a =>
       if String.eqb a "cn" then "Philip J. Fry"%string
       else if String.eqb a "uid" then "fry"%string
       else ""%string |}.

(** A directory with one user, whose password is his name, and a search
    that breaks the connection. *)
Definition directory : Directory :=
  {| Sprintf := fun format arg => (format ++ "/" ++ arg)%string;
     EscapeFilter := fun s => s;
     Search := fun _ request =>
       if String.eqb (Filter request) "(uid=%s)/fry" then inl [fry]
       else if String.eqb (Filter request) "(uid=%s)/lost"
            then inr (LdapError 200)
            else inl [];
     BindAs := fun _ _ password =>
       if String.eqb password "fry" then None else Some (LdapError 49) |}.

(** [NewClient(config, 2, 3, 1, 2, 30s)] with a network that works. *)
Definition ready : Sys := snd (NewClient net_ok config 2 3 1 2 30 Samples.w0).

(** The same client after its search pool was closed. *)
Definition search_closed : Sys := snd (on_pool OfSearch Close ready).

End ClientSamples.

(** * Properties *)

(** ** Steps of the monad *)

Lemma bind_ret_eq (A B : Type) (m : M A) (k : A -> M B) (s s' : State) (a : A) :
  m s = (Ret a, s') -> bind m k s = k a s'.
Proof. intros H; unfold bind; rewrite H; reflexivity. Qed.

Lemma bind_panic_eq (A B : Type) (m : M A) (k : A -> M B) (s s' : State) (why : PanicKind) :
  m s = (Panic why, s') -> bind m k s = (Panic why, s').
Proof. intros H; unfold bind; rewrite H; reflexivity. Qed.

Lemma bind_block_eq (A B : Type) (m : M A) (k : A -> M B) (s s' : State) :
  m s = (Block, s') -> bind m k s = (Block, s').
Proof. intros H; unfold bind; rewrite H; reflexivity. Qed.

Lemma state_eta (s : State) : {| pool := pool s; world := world s |} = s.
Proof. destruct s; reflexivity. Qed.

Lemma with_store_same (w : World) : with_store (store w) w = w.
Proof. destruct w; reflexivity. Qed.

Lemma chan_eta (ch : chan) :
  {| buf := buf ch; cap := cap ch; closed := closed ch |} = ch.
Proof. destruct ch; reflexivity. Qed.

(** ** Steps of the collaborators *)

Lemma logf_has_logger (s : State) (lvl : Level) (msg : string) :
  has_logger s -> logf lvl msg s = (Ret tt, logged lvl msg s).
Proof.
  unfold has_logger, logf, GetLogger, bind, gets, Client_GetLogger.
  destruct (parentClient (pool s)); [reflexivity | congruence].
Qed.

Lemma logf_no_logger (s : State) (lvl : Level) (msg : string) :
  parentClient (pool s) = None -> logf lvl msg s = (Panic NilDereference, s).
Proof.
  intros H; unfold logf, GetLogger, bind, gets, Client_GetLogger.
  rewrite H; reflexivity.
Qed.

Lemma call_factory_some (s : State) (fn : PoolFactory) :
  factory (pool s) = Some fn ->
  call_factory s =
  (Ret (fn (parentClient (pool s)) (poolType (pool s)) (factory_calls (world s))),
   invoked s).
Proof.
  intros H; unfold call_factory, bind, gets; rewrite H; reflexivity.
Qed.

Lemma NewConn_created (s : State) (fn : PoolFactory) :
  factory (pool s) = Some fn ->
  snd (next_result fn s) = None ->
  NewConn s =
  (Ret (Some (wrapConn (fst (next_result fn s)) (closeAt (pool s))), None),
   invoked s).
Proof.
  intros Hf Hr; unfold NewConn.
  rewrite (bind_ret_eq _ _ _ _ _ _ _ (call_factory_some s fn Hf)).
  fold (next_result fn s); rewrite Hr; reflexivity.
Qed.

Lemma NewConn_failed (s : State) (fn : PoolFactory) (e : error) :
  factory (pool s) = Some fn ->
  snd (next_result fn s) = Some e ->
  has_logger s ->
  NewConn s =
  (Ret (None, Some e),
   logged ErrorLevel "failed to create NewConn for pooldap.channelPool %s"
          (invoked s)).
Proof.
  intros Hf Hr Hl; unfold NewConn.
  rewrite (bind_ret_eq _ _ _ _ _ _ _ (call_factory_some s fn Hf)).
  fold (next_result fn s); rewrite Hr.
  rewrite (bind_ret_eq _ _ _ _ _ _ _ (logf_has_logger (invoked s) _ _ Hl)).
  reflexivity.
Qed.

(** ** The release path *)

Lemma put_locked_closed_pool (s : State) (id : ConnId) :
  conns (pool s) = None -> put_locked (Some id) s = (Ret tt, dispose id s).
Proof.
  intros H; unfold put_locked, bind, gets; rewrite H; reflexivity.
Qed.

Lemma put_locked_room (s : State) (conn : Client) :
  is_open s -> closed (store (world s)) = false -> has_room s = true ->
  put_locked conn s = (Ret tt, stored conn s).
Proof.
  unfold is_open, has_room; intros Ho Hc Hr.
  unfold put_locked, bind, gets, on_chan, chan_try_send.
  rewrite Ho, Hc, Hr; reflexivity.
Qed.

Lemma put_locked_full (s : State) (id : ConnId) :
  is_open s -> closed (store (world s)) = false -> has_room s = false ->
  put_locked (Some id) s = (Ret tt, dispose id s).
Proof.
  unfold is_open, has_room; intros Ho Hc Hr.
  unfold put_locked, bind, gets, on_chan, chan_try_send.
  rewrite Ho, Hc, Hr; simpl.
  unfold dispose; simpl; rewrite with_store_same; reflexivity.
Qed.

Lemma put_locked_released (s : State) (id : ConnId) :
  chan_inv s -> put_locked (Some id) s = (Ret tt, released id s).
Proof.
  intros Hinv; unfold released.
  destruct (conns (pool s)) as [[]|] eqn:Ho.
  - destruct (Hinv Ho) as [Hc _].
    destruct (has_room s) eqn:Hr.
    + apply put_locked_room; assumption.
    + apply put_locked_full; assumption.
  - apply put_locked_closed_pool; assumption.
Qed.

(** C6.  A release of a connection into the pool never leaves the caller
    suspended: [put] returns, having disposed the connection when the
    pool is closed, disposed it when the store is at capacity, and
    appended it to the store otherwise. *)
Theorem put_never_blocks (s : State) (id : ConnId) :
  chan_inv s ->
  put (Some id) s = (Ret tt, released id s) /\
  (conns (pool s) = None -> released id s = dispose id s) /\
  (is_open s -> has_room s = false -> released id s = dispose id s) /\
  (is_open s -> has_room s = true -> released id s = stored (Some id) s).
Proof.
  intros Hinv; split; [exact (put_locked_released s id Hinv) | ].
  unfold released, is_open; repeat split; intros H; try intros H'.
  - rewrite H; reflexivity.
  - rewrite H, H'; reflexivity.
  - rewrite H, H'; reflexivity.
Qed.

Lemma put_never_blocks_witness :
  let s := Samples.pool_of 1 1 Samples.dial_ok in
  chan_inv s /\
  put (Some 7) s = (Ret tt, released 7 s) /\
  (conns (pool s) = None -> released 7 s = dispose 7 s) /\
  (is_open s -> has_room s = false -> released 7 s = dispose 7 s) /\
  (is_open s -> has_room s = true -> released 7 s = stored (Some 7) s).
Proof.
  intros s.
  assert (H : chan_inv s).
  { intros _; split; [reflexivity | discriminate]. }
  split; [exact H | exact (put_never_blocks s 7 H)].
Defined.

(** ** Checkout *)

Lemma Get_nil_conns (s : State) :
  conns (pool s) = None -> Get s = (Ret (None, Some ErrClosed), s).
Proof.
  intros H; unfold Get, getConns, bind, gets; rewrite H; reflexivity.
Qed.

Lemma on_chan_recv_drained (s : State) :
  closed (store (world s)) = true -> buf (store (world s)) = [] ->
  on_chan the_chan chan_recv s = (Ret None, s).
Proof.
  intros Hc Hb; unfold on_chan, chan_recv; rewrite Hb, Hc.
  rewrite with_store_same, state_eta; reflexivity.
Qed.

Lemma on_chan_recv_empty (s : State) :
  closed (store (world s)) = false -> buf (store (world s)) = [] ->
  on_chan the_chan chan_recv s = (Block, s).
Proof.
  intros Hc Hb; unfold on_chan, chan_recv; rewrite Hb, Hc.
  rewrite with_store_same, state_eta; reflexivity.
Qed.

Lemma Get_select_drained (s : State) :
  closed (store (world s)) = true -> buf (store (world s)) = [] ->
  Get_select the_chan s = (Ret (None, Some ErrClosed), s).
Proof.
  intros Hc Hb; unfold Get_select.
  rewrite (bind_ret_eq _ _ _ _ _ _ _ (on_chan_recv_drained s Hc Hb)).
  reflexivity.
Qed.

Lemma Get_open_empty (s : State) :
  is_open s -> closed (store (world s)) = false -> buf (store (world s)) = [] ->
  Get s = (Block, s).
Proof.
  unfold is_open; intros Ho Hc Hb.
  unfold Get, getConns, bind at 1, gets; rewrite Ho; unfold Get_select.
  exact (bind_block_eq _ _ _ _ _ _ (on_chan_recv_empty s Hc Hb)).
Qed.

(** C5.  On a pool that has been closed, [Get] returns [ErrClosed] and
    leaves the state as it is: it neither suspends nor panics.  The same
    holds for a checkout that read [c.conns] before [Close] and enters its
    [select] on the closed, drained channel. *)
Theorem Get_after_Close (s : State) :
  is_closed s ->
  Get s = (Ret (None, Some ErrClosed), s) /\
  Get_select the_chan s = (Ret (None, Some ErrClosed), s).
Proof.
  intros (Hn & Hc & Hb); split.
  - exact (Get_nil_conns s Hn).
  - exact (Get_select_drained s Hc Hb).
Qed.

Lemma Get_after_Close_witness :
  let s := snd (Close (Samples.pool_of 2 5 Samples.dial_ok)) in
  is_closed s /\
  Get s = (Ret (None, Some ErrClosed), s) /\
  Get_select the_chan s = (Ret (None, Some ErrClosed), s).
Proof.
  intros s.
  assert (H : is_closed s) by (repeat split).
  split; [exact H | exact (Get_after_Close s H)].
Defined.

(** C1.  A pool made with no initial connection has an open, empty store;
    [Get] on it is suspended on the receive, in the state it started
    from: the factory has not been invoked. *)
Theorem Get_empty_store_blocks :
  let s := Samples.pool_of 0 1 Samples.dial_ok in
  is_open s /\
  buf (store (world s)) = [] /\
  Get s = (Block, s) /\
  factory_calls (world (snd (Get s))) = 0%nat.
Proof.
  intros s.
  assert (Ho : is_open s) by reflexivity.
  assert (Hc : closed (store (world s)) = false) by reflexivity.
  assert (Hb : buf (store (world s)) = []) by reflexivity.
  pose proof (Get_open_empty s Ho Hc Hb) as HG.
  split; [exact Ho | split; [exact Hb | split; [exact HG | ]]].
  rewrite HG; reflexivity.
Qed.

Lemma Get_dead_NewConn (s : State) (id : ConnId) (rest : list Client) :
  is_open s ->
  buf (store (world s)) = Some id :: rest ->
  aliveChecks (pool s) = true ->
  alive (world s) id = false ->
  has_logger s ->
  Get s = NewConn (stale_dropped id s).
Proof.
  unfold is_open, has_logger; intros Ho Hb Ha Hd Hl.
  unfold Get, getConns, bind at 1, gets; rewrite Ho.
  unfold Get_select, bind at 1, on_chan, chan_recv; rewrite Hb.
  unfold bind at 1, gets; simpl; rewrite Ha; simpl.
  unfold bind at 1, isAlive, bind at 1, upd_world, gets; simpl; rewrite Hd.
  unfold bind at 1.
  rewrite logf_has_logger by exact Hl.
  unfold bind at 1, conn_Close, upd_world; simpl.
  unfold stale_dropped; rewrite Hb; reflexivity.
Qed.

(** C8, as it holds.  With liveness checks on, on an open pool that has an
    owner to log through, a checkout that pulls a connection failing the
    probe closes that connection, invokes the factory once and returns
    what the factory gave: a handle on the fresh connection, which is not
    probed, or the error of the factory. *)
Theorem Get_replaces_dead_connection
    (s : State) (id : ConnId) (rest : list Client) (fn : PoolFactory) :
  is_open s ->
  buf (store (world s)) = Some id :: rest ->
  aliveChecks (pool s) = true ->
  alive (world s) id = false ->
  has_logger s ->
  factory (pool s) = Some fn ->
  exists s' : State,
    Get s = (Ret (handle_or_error (next_result fn s) (closeAt (pool s))), s') /\
    factory_calls (world s') = S (factory_calls (world s)) /\
    probes (world s') = probes (world s) ++ [id] /\
    disposed (world s') = disposed (world s) ++ [id] /\
    buf (store (world s')) = rest.
Proof.
  intros Ho Hb Ha Hd Hl Hf.
  rewrite (Get_dead_NewConn s id rest Ho Hb Ha Hd Hl).
  assert (Hf' : factory (pool (stale_dropped id s)) = Some fn) by exact Hf.
  assert (Hl' : has_logger (stale_dropped id s)) by exact Hl.
  assert (Hn : next_result fn (stale_dropped id s) = next_result fn s) by reflexivity.
  unfold handle_or_error.
  destruct (snd (next_result fn s)) as [e|] eqn:Hr.
  - rewrite <- Hn in Hr.
    rewrite (NewConn_failed (stale_dropped id s) fn e Hf' Hr Hl').
    eexists; split; [reflexivity | ].
    simpl; rewrite Hb; repeat split; reflexivity.
  - rewrite <- Hn in Hr.
    rewrite (NewConn_created (stale_dropped id s) fn Hf' Hr).
    eexists; split; [rewrite Hn; reflexivity | ].
    simpl; rewrite Hb; repeat split; reflexivity.
Qed.

Lemma Get_replaces_dead_connection_witness :
  let s := Samples.stale_pool Samples.dial_ok in
  exists s' : State,
    Get s = (Ret (handle_or_error (next_result Samples.dial_ok s) (closeAt (pool s))), s') /\
    factory_calls (world s') = S (factory_calls (world s)) /\
    probes (world s') = probes (world s) ++ [0%nat] /\
    disposed (world s') = disposed (world s) ++ [0%nat] /\
    buf (store (world s')) = [].
Proof.
  intros s.
  apply (Get_replaces_dead_connection s 0%nat [] Samples.dial_ok).
  - reflexivity.
  - reflexivity.
  - reflexivity.
  - reflexivity.
  - unfold has_logger; simpl; discriminate.
  - reflexivity.
Defined.

(** ** Release of a handle *)

Lemma chan_inv_logged (s : State) (lvl : Level) (msg : string) :
  chan_inv s -> chan_inv (logged lvl msg s).
Proof. intros H; exact H. Qed.

Lemma chan_inv_invoked (s : State) : chan_inv s -> chan_inv (invoked s).
Proof. intros H; exact H. Qed.

Lemma chan_inv_wrapped_disposed (s : State) (h : PoolConn) :
  chan_inv s -> chan_inv (wrapped_disposed h s).
Proof. intros H; unfold wrapped_disposed; destruct (Conn h); exact H. Qed.

Lemma Close_unusable_prefix (h : PoolConn) (s : State) :
  has_logger s ->
  Close_unusable h s =
  (r <- NewConn ;; conn <- field_Conn (fst r) ;; put conn)
    (wrapped_disposed h (logged InfoLevel "Closing unusable connection" s)).
Proof.
  intros Hl; unfold Close_unusable.
  rewrite (bind_ret_eq _ _ _ _ _ _ _ (logf_has_logger s _ _ Hl)).
  unfold wrapped_disposed; destruct (Conn h) as [id|]; reflexivity.
Qed.

Lemma Close_unusable_replaces (h : PoolConn) (s : State) (fn : PoolFactory) (r : ConnId) :
  has_logger s ->
  chan_inv s ->
  factory (pool s) = Some fn ->
  next_result fn s = (Some r, None) ->
  Close_unusable h s =
  (Ret tt,
   released r (invoked (wrapped_disposed h
     (logged InfoLevel "Closing unusable connection" s)))).
Proof.
  intros Hl Hinv Hf Hr.
  rewrite (Close_unusable_prefix h s Hl).
  set (s1 := wrapped_disposed h (logged InfoLevel "Closing unusable connection" s)).
  assert (Hf1 : factory (pool s1) = Some fn).
  { unfold s1, wrapped_disposed; destruct (Conn h); exact Hf. }
  assert (Hr1 : next_result fn s1 = (Some r, None)).
  { unfold s1, wrapped_disposed; destruct (Conn h); exact Hr. }
  assert (Hinv1 : chan_inv (invoked s1)).
  { apply chan_inv_invoked, chan_inv_wrapped_disposed, chan_inv_logged, Hinv. }
  assert (Hn : snd (next_result fn s1) = None) by (rewrite Hr1; reflexivity).
  rewrite (bind_ret_eq _ _ _ _ _ _ _ (NewConn_created s1 fn Hf1 Hn)).
  rewrite Hr1; simpl fst; unfold field_Conn, wrapConn, Conn.
  unfold bind at 1, ret, put.
  exact (put_locked_released (invoked s1) r Hinv1).
Qed.

(** C3, as it holds.  A handle whose unusable flag is set, released on an
    open pool whose factory returns a connection: the wrapped connection is
    closed and is not put into the store, the factory is invoked once, and
    the replacement goes through [put]: into the store when there is room,
    closed when the store is at capacity. *)
Theorem Release_unusable_replaces
    (h : PoolConn) (s : State) (fn : PoolFactory) (r : ConnId) :
  unusable h = true ->
  is_open s ->
  chan_inv s ->
  has_logger s ->
  factory (pool s) = Some fn ->
  next_result fn s = (Some r, None) ->
  exists s' : State,
    PoolConn_Close (Some h) s = (Ret tt, s') /\
    factory_calls (world s') = S (factory_calls (world s)) /\
    buf (store (world s')) =
      buf (store (world s)) ++ (if has_room s then [Some r] else []) /\
    disposed (world s') =
      disposed (world s) ++ conn_ids [Conn h] ++ (if has_room s then [] else [r]).
Proof.
  intros Hu Ho Hinv Hl Hf Hr.
  unfold PoolConn_Close; rewrite Hu.
  rewrite (Close_unusable_replaces h s fn r Hl Hinv Hf Hr).
  eexists; split; [reflexivity | ].
  unfold is_open in Ho.
  unfold released, wrapped_disposed, has_room.
  destruct (Conn h) as [c|]; simpl; rewrite Ho;
    destruct (Nat.ltb (length (buf (store (world s)))) (cap (store (world s))));
    simpl; repeat split;
    rewrite ?app_nil_r, <- ?app_assoc; reflexivity.
Qed.

Lemma Release_unusable_replaces_witness :
  let s := snd (Get (Samples.pool_of 1 1 Samples.dial_ok)) in
  let h := with_unusable true Samples.handle_out in
  exists s' : State,
    PoolConn_Close (Some h) s = (Ret tt, s') /\
    factory_calls (world s') = S (factory_calls (world s)) /\
    buf (store (world s')) =
      buf (store (world s)) ++ (if has_room s then [Some 1%nat] else []) /\
    disposed (world s') =
      disposed (world s) ++ conn_ids [Conn h] ++ (if has_room s then [] else [1%nat]).
Proof.
  intros s h.
  apply (Release_unusable_replaces h s Samples.dial_ok 1%nat).
  - reflexivity.
  - reflexivity.
  - intros _; split; [reflexivity | discriminate].
  - unfold has_logger; simpl; discriminate.
  - reflexivity.
  - reflexivity.
Defined.

(** C3, as stated, fails when the store is at capacity at the release:
    with the store refilled while the handle was out, the replacement that
    the release creates is closed and the store is left as it was. *)
Lemma Release_unusable_full_store :
  let s := Samples.refilled in
  let h := with_unusable true Samples.handle_out in
  fst (Get (Samples.pool_of 1 1 Samples.dial_ok)) = Ret (Some Samples.handle_out, None) /\
  unusable h = true /\
  is_open s /\
  next_result Samples.dial_ok s = (Some 2%nat, None) /\
  exists s' : State,
    PoolConn_Close (Some h) s = (Ret tt, s') /\
    buf (store (world s')) = buf (store (world s)) /\
    ~ In (Some 2%nat) (buf (store (world s'))) /\
    In 2%nat (disposed (world s')).
Proof.
  intros s h.
  split; [reflexivity | ].
  split; [reflexivity | ].
  split; [reflexivity | ].
  split; [reflexivity | ].
  eexists; split; [reflexivity | ].
  split; [reflexivity | ].
  split.
  - simpl; intros [H | []]; discriminate.
  - simpl; right; left; reflexivity.
Qed.

(** The release of an unusable handle does not look at the error of
    [NewConn]: when the factory fails, and when [Close] of the pool has
    taken the factory away, it panics after the wrapped connection is
    closed. *)
Lemma Close_unusable_factory_error (h : PoolConn) (s : State) (fn : PoolFactory) (e : error) :
  has_logger s ->
  factory (pool s) = Some fn ->
  snd (next_result fn s) = Some e ->
  fst (Close_unusable h s) = Panic NilDereference.
Proof.
  intros Hl Hf Hr.
  rewrite (Close_unusable_prefix h s Hl).
  set (s1 := wrapped_disposed h (logged InfoLevel "Closing unusable connection" s)).
  assert (Hf1 : factory (pool s1) = Some fn).
  { unfold s1, wrapped_disposed; destruct (Conn h); exact Hf. }
  assert (Hr1 : snd (next_result fn s1) = Some e).
  { unfold s1, wrapped_disposed; destruct (Conn h); exact Hr. }
  assert (Hl1 : has_logger s1).
  { unfold s1, wrapped_disposed; destruct (Conn h); exact Hl. }
  rewrite (bind_ret_eq _ _ _ _ _ _ _ (NewConn_failed s1 fn e Hf1 Hr1 Hl1)).
  reflexivity.
Qed.

Lemma Close_unusable_no_factory (h : PoolConn) (s : State) :
  has_logger s ->
  factory (pool s) = None ->
  fst (Close_unusable h s) = Panic NilDereference.
Proof.
  intros Hl Hf.
  rewrite (Close_unusable_prefix h s Hl).
  set (s1 := wrapped_disposed h (logged InfoLevel "Closing unusable connection" s)).
  assert (Hf1 : factory (pool s1) = None).
  { unfold s1, wrapped_disposed; destruct (Conn h); exact Hf. }
  unfold bind at 1, NewConn, bind at 1, call_factory, bind at 1, gets.
  rewrite Hf1; reflexivity.
Qed.

(** ** Release of a nil connection *)

Lemma put_nil_failed (s : State) (fn : PoolFactory) (e : error) :
  has_logger s ->
  factory (pool s) = Some fn ->
  snd (next_result fn s) = Some e ->
  put None s =
  (Ret tt,
   logged ErrorLevel "failed to create NewConn for pooldap.channelPool %s"
     (invoked (logged DebugLevel "ldap connection is nil. recreating" s))).
Proof.
  intros Hl Hf Hr; unfold put.
  rewrite (bind_ret_eq _ _ _ _ _ _ _ (logf_has_logger s _ _ Hl)).
  set (s1 := logged DebugLevel "ldap connection is nil. recreating" s).
  assert (Hr1 : snd (next_result fn s1) = Some e) by exact Hr.
  rewrite (bind_ret_eq _ _ _ _ _ _ _ (NewConn_failed s1 fn e Hf Hr1 Hl)).
  reflexivity.
Qed.

Lemma put_nil_created (s : State) (fn : PoolFactory) (r : ConnId) :
  has_logger s ->
  chan_inv s ->
  factory (pool s) = Some fn ->
  next_result fn s = (Some r, None) ->
  put None s =
  (Ret tt,
   released r (invoked (logged DebugLevel "ldap connection is nil. recreating" s))).
Proof.
  intros Hl Hinv Hf Hr; unfold put.
  rewrite (bind_ret_eq _ _ _ _ _ _ _ (logf_has_logger s _ _ Hl)).
  set (s1 := logged DebugLevel "ldap connection is nil. recreating" s).
  assert (Hr1 : next_result fn s1 = (Some r, None)) by exact Hr.
  assert (Hn : snd (next_result fn s1) = None) by (rewrite Hr1; reflexivity).
  rewrite (bind_ret_eq _ _ _ _ _ _ _ (NewConn_created s1 fn Hf Hn)).
  rewrite Hr1; simpl.
  unfold bind at 1, ret.
  exact (put_locked_released (invoked s1) r Hinv).
Qed.

(** C9, as it holds.  [put] of a nil connection on an open pool that has
    an owner to log through and no nil in its store, with a factory that
    returns a connection whenever it returns no error: the factory is
    invoked once; when it fails [put] returns with the store as
    it was and nothing closed; when it succeeds the replacement is
    released in place of nil, into the store when there is room and closed
    when the store is at capacity.  No nil enters the store. *)
Theorem put_nil_releases_replacement (s : State) (fn : PoolFactory) :
  is_open s ->
  chan_inv s ->
  has_logger s ->
  factory (pool s) = Some fn ->
  factory_sound fn ->
  store_nonnil s ->
  exists s' : State,
    put None s = (Ret tt, s') /\
    store_nonnil s' /\
    factory_calls (world s') = S (factory_calls (world s)) /\
    (forall e : error, snd (next_result fn s) = Some e ->
       buf (store (world s')) = buf (store (world s)) /\
       disposed (world s') = disposed (world s)) /\
    (forall r : ConnId, next_result fn s = (Some r, None) ->
       buf (store (world s')) =
         buf (store (world s)) ++ (if has_room s then [Some r] else []) /\
       disposed (world s') =
         disposed (world s) ++ (if has_room s then [] else [r])).
Proof.
  intros Ho Hinv Hl Hf Hs Hn.
  destruct (next_result fn s) as [c oe] eqn:Hr.
  destruct oe as [e|].
  - assert (Hr' : snd (next_result fn s) = Some e) by (rewrite Hr; reflexivity).
    rewrite (put_nil_failed s fn e Hl Hf Hr').
    eexists; split; [reflexivity | ].
    split; [exact Hn | ].
    split; [reflexivity | ].
    split; [intros _ _; split; reflexivity | intros r Hx; discriminate Hx].
  - destruct c as [r|].
    + rewrite (put_nil_created s fn r Hl Hinv Hf Hr).
      eexists; split; [reflexivity | ].
      unfold is_open in Ho; unfold store_nonnil in *.
      unfold released, has_room; simpl; rewrite Ho.
      destruct (Nat.ltb (length (buf (store (world s)))) (cap (store (world s))));
        simpl; (split; [ | split; [reflexivity | split]]).
      * apply Forall_app; split; [exact Hn | ].
        constructor; [discriminate | constructor].
      * intros e He; discriminate He.
      * intros r' Hx; injection Hx as <-; rewrite app_nil_r; split; reflexivity.
      * exact Hn.
      * intros e He; discriminate He.
      * intros r' Hx; injection Hx as <-; rewrite app_nil_r; split; reflexivity.
    + exfalso.
      apply (Hs (parentClient (pool s)) (poolType (pool s)) (factory_calls (world s)));
        fold (next_result fn s); rewrite Hr; reflexivity.
Qed.

Lemma put_nil_releases_replacement_witness :
  let s := snd (Get (Samples.pool_of 1 1 Samples.dial_ok)) in
  exists s' : State,
    put None s = (Ret tt, s') /\
    store_nonnil s' /\
    factory_calls (world s') = S (factory_calls (world s)) /\
    (forall e : error, snd (next_result Samples.dial_ok s) = Some e ->
       buf (store (world s')) = buf (store (world s)) /\
       disposed (world s') = disposed (world s)) /\
    (forall r : ConnId, next_result Samples.dial_ok s = (Some r, None) ->
       buf (store (world s')) =
         buf (store (world s)) ++ (if has_room s then [Some r] else []) /\
       disposed (world s') =
         disposed (world s) ++ (if has_room s then [] else [r])).
Proof.
  intros s.
  apply (put_nil_releases_replacement s Samples.dial_ok).
  - reflexivity.
  - intros _; split; [reflexivity | discriminate].
  - unfold has_logger; simpl; discriminate.
  - reflexivity.
  - intros lc pt n _; simpl; discriminate.
  - constructor.
Defined.

(** C9, as stated, fails when the store is at capacity: the replacement
    that [put] creates for the nil connection is closed, it is not
    inserted. *)
Lemma put_nil_full_store :
  let s := Samples.refilled in
  is_open s /\
  next_result Samples.dial_ok s = (Some 2%nat, None) /\
  exists s' : State,
    put None s = (Ret tt, s') /\
    factory_calls (world s') = S (factory_calls (world s)) /\
    buf (store (world s')) = buf (store (world s)) /\
    ~ In (Some 2%nat) (buf (store (world s'))) /\
    In 2%nat (disposed (world s')).
Proof.
  intros s.
  split; [reflexivity | ].
  split; [reflexivity | ].
  eexists; split; [reflexivity | ].
  split; [reflexivity | ].
  split; [reflexivity | ].
  split.
  - simpl; intros [H | []]; discriminate.
  - simpl; left; reflexivity.
Qed.

(** ** The unusable flag *)

Lemma with_unusable_same (h : PoolConn) : with_unusable (unusable h) h = h.
Proof. destruct h; reflexivity. Qed.

Lemma existsb_matches (err : option error) (codes : list Z) :
  existsb (IsErrorWithCode err) codes = true <-> matches err codes.
Proof. unfold matches; apply existsb_exists. Qed.

(** With a logger the loop returns, the flag set on a match and the handle
    untouched otherwise. *)
Lemma AutoClose_range_has_logger
    (h : PoolConn) (err : option error) (codes : list Z) (s : State) :
  has_logger s ->
  exists s' : State,
    AutoClose_range h err codes s =
    (Ret (with_unusable (unusable h || existsb (IsErrorWithCode err) codes) h), s').
Proof.
  intros Hl; induction codes as [|code rest IH]; simpl.
  - exists s; rewrite orb_false_r, with_unusable_same; reflexivity.
  - destruct (IsErrorWithCode err code); simpl.
    + rewrite (bind_ret_eq _ _ _ _ _ _ _ (logf_has_logger s _ _ Hl)).
      rewrite orb_true_r; eexists; reflexivity.
    + exact IH.
Qed.

(** Whatever the state, the loop returns or panics, and a handle it
    returns is the one it was given, possibly with the flag set. *)
Lemma AutoClose_range_outcome
    (h : PoolConn) (err : option error) (codes : list Z) (s : State) :
  (exists s', AutoClose_range h err codes s = (Ret h, s')) \/
  (exists s', AutoClose_range h err codes s = (Ret (with_unusable true h), s')) \/
  (exists why s', AutoClose_range h err codes s = (Panic why, s')).
Proof.
  induction codes as [|code rest IH]; simpl.
  - left; exists s; reflexivity.
  - destruct (IsErrorWithCode err code); [ | exact IH].
    destruct (parentClient (pool s)) as [a|] eqn:Hp.
    + assert (Hl : has_logger s) by (unfold has_logger; rewrite Hp; discriminate).
      rewrite (bind_ret_eq _ _ _ _ _ _ _ (logf_has_logger s _ _ Hl)).
      right; left; eexists; reflexivity.
    + rewrite (bind_panic_eq _ _ _ _ _ _ _ (logf_no_logger s _ _ Hp)).
      right; right; eexists; eexists; reflexivity.
Qed.

Lemma AutoClose_returns (p : option PoolConn) (err : option error) (s : State) :
  exists (p' : option PoolConn) (s' : State), AutoClose p err s = (Ret p', s').
Proof.
  unfold AutoClose, AutoClose_body; destruct p as [h|].
  - destruct (AutoClose_range_outcome h err (pc_closeAt h) s)
      as [[s' H] | [[s' H] | [why [s' H]]]]; rewrite H;
      eexists; eexists; reflexivity.
  - eexists; eexists; reflexivity.
Qed.

Lemma AutoClose_handle (h : PoolConn) (err : option error) (s : State) :
  exists (h' : PoolConn) (s' : State),
    AutoClose (Some h) err s = (Ret (Some h'), s') /\
    (h' = h \/ h' = with_unusable true h).
Proof.
  unfold AutoClose, AutoClose_body.
  destruct (AutoClose_range_outcome h err (pc_closeAt h) s)
    as [[s' H] | [[s' H] | [why [s' H]]]]; rewrite H.
  - exists h; eexists; split; [reflexivity | left; reflexivity].
  - exists (with_unusable true h); eexists; split; [reflexivity | right; reflexivity].
  - exists h; eexists; split; [reflexivity | left; reflexivity].
Qed.

(** C7, as it holds.  [AutoClose] returns whatever the error signal, the
    handle and the state: a panic of its body is recovered.  On a handle
    of a pool that has an owner to log through, the wrapped connection and
    the codes are left alone, and the flag is set afterwards exactly when
    it was set before or the signal matches one of the codes the handle
    got from its pool. *)
Theorem AutoClose_marks_on_match
    (p : option PoolConn) (err : option error) (s : State) :
  (exists (p' : option PoolConn) (s' : State), AutoClose p err s = (Ret p', s')) /\
  (forall h : PoolConn, p = Some h -> has_logger s ->
     exists (h' : PoolConn) (s' : State),
       AutoClose p err s = (Ret (Some h'), s') /\
       Conn h' = Conn h /\
       pc_closeAt h' = pc_closeAt h /\
       (unusable h' = true <-> unusable h = true \/ matches err (pc_closeAt h))).
Proof.
  split; [apply AutoClose_returns | ].
  intros h -> Hl.
  destruct (AutoClose_range_has_logger h err (pc_closeAt h) s Hl) as [s' H].
  unfold AutoClose, AutoClose_body; rewrite H.
  eexists; eexists; split; [reflexivity | ].
  split; [reflexivity | split; [reflexivity | ]].
  simpl; rewrite orb_true_iff, existsb_matches; reflexivity.
Qed.

Lemma AutoClose_marks_on_match_witness :
  let s := Samples.pool_of 1 1 Samples.dial_ok in
  let h := Samples.handle_out in
  has_logger s /\
  exists (h' : PoolConn) (s' : State),
    AutoClose (Some h) (Some (LdapError 200)) s = (Ret (Some h'), s') /\
    Conn h' = Conn h /\
    pc_closeAt h' = pc_closeAt h /\
    (unusable h' = true <->
     unusable h = true \/ matches (Some (LdapError 200)) (pc_closeAt h)).
Proof.
  intros s h.
  assert (Hl : has_logger s) by (unfold has_logger; simpl; discriminate).
  split; [exact Hl | ].
  exact (proj2 (AutoClose_marks_on_match (Some h) (Some (LdapError 200)) s)
               h eq_refl Hl).
Defined.

(** The handles that the pool makes carry the codes of the pool. *)
Lemma NewConn_carries_codes (s s' : State) (h : PoolConn) (oe : option error) :
  NewConn s = (Ret (Some h, oe), s') -> pc_closeAt h = closeAt (pool s).
Proof.
  unfold NewConn, bind at 1.
  destruct (call_factory s) as [[r | why | ] s1] eqn:Hc; try discriminate.
  assert (Hp : pool s1 = pool s).
  { unfold call_factory, bind, gets, upd_world, panic, ret in Hc.
    destruct (factory (pool s)); inversion Hc; reflexivity. }
  destruct (snd r).
  - unfold bind; destruct (logf _ _ s1) as [[[] | | ] ?]; discriminate.
  - unfold bind, gets, ret; intros H; inversion H; subst; simpl.
    rewrite Hp; reflexivity.
Qed.

Lemma handle_step_flag (op : HandleOp) (h : PoolConn) (s : State) :
  unusable h = true ->
  unusable (fst (snd (handle_step op h s))) = true /\
  Conn (fst (snd (handle_step op h s))) = Conn h.
Proof.
  intros Hu.
  destruct op; simpl;
    try (unfold keep;
         match goal with
         | |- context [let (_, _) := ?m in _] => destruct m
         end; simpl; split; [exact Hu | reflexivity]).
  - split; reflexivity.
  - destruct (AutoClose_handle h err s) as (h' & s' & H & Hh).
    rewrite H; simpl.
    destruct Hh as [-> | ->]; split; try reflexivity; exact Hu.
Qed.

Lemma handle_run_flag (ops : list HandleOp) (h : PoolConn) (s : State) :
  unusable h = true ->
  unusable (fst (handle_run ops h s)) = true /\
  Conn (fst (handle_run ops h s)) = Conn h.
Proof.
  revert h s; induction ops as [|op rest IH]; intros h s Hu; simpl.
  - split; [exact Hu | reflexivity].
  - destruct (handle_step_flag op h s Hu) as [Hu1 Hc1].
    destruct (IH _ (snd (snd (handle_step op h s))) Hu1) as [Hu2 Hc2].
    split; [exact Hu2 | rewrite Hc2; exact Hc1].
Qed.

(** ** Closed connections stay closed *)

Lemma only_disposes_same (A : Type) (m : M A) :
  (forall s, world (snd (m s)) = world s) -> only_disposes m.
Proof.
  intros H s; exists []; rewrite H, app_nil_r; reflexivity.
Qed.

Lemma only_disposes_bind (A B : Type) (m : M A) (k : A -> M B) :
  only_disposes m -> (forall a, only_disposes (k a)) -> only_disposes (bind m k).
Proof.
  intros Hm Hk s; unfold bind.
  destruct (Hm s) as [l Hl].
  destruct (m s) as [[a | why | ] s1]; simpl in Hl.
  - destruct (Hk a s1) as [l' Hl'].
    exists (l ++ l'); rewrite Hl', Hl, app_assoc; reflexivity.
  - exists l; exact Hl.
  - exists l; exact Hl.
Qed.

Lemma only_disposes_ret (A : Type) (a : A) : only_disposes (ret a).
Proof. apply only_disposes_same; reflexivity. Qed.

Lemma only_disposes_panic (A : Type) (why : PanicKind) :
  only_disposes (panic (A := A) why).
Proof. apply only_disposes_same; reflexivity. Qed.

Lemma only_disposes_gets (A : Type) (f : State -> A) : only_disposes (gets f).
Proof. apply only_disposes_same; reflexivity. Qed.

Lemma only_disposes_upd_world (f : World -> World) :
  (forall w, disposed (f w) = disposed w) -> only_disposes (upd_world f).
Proof.
  intros H s; exists []; simpl; rewrite H, app_nil_r; reflexivity.
Qed.

Lemma only_disposes_on_chan (A : Type) (op : chan -> Outcome A * chan) :
  only_disposes (on_chan the_chan op).
Proof.
  intros s; exists []; unfold on_chan.
  destruct (op (store (world s))); simpl; rewrite app_nil_r; reflexivity.
Qed.

Lemma only_disposes_logf (lvl : Level) (msg : string) : only_disposes (logf lvl msg).
Proof.
  unfold logf, GetLogger, Client_GetLogger, emit.
  apply only_disposes_bind.
  - apply only_disposes_bind; [apply only_disposes_gets | ].
    intros [a|]; [apply only_disposes_ret | apply only_disposes_panic].
  - intros _; apply only_disposes_upd_world; reflexivity.
Qed.

Lemma only_disposes_conn_Close (conn : Client) : only_disposes (conn_Close conn).
Proof.
  destruct conn as [id|]; simpl.
  - intros s; exists [id]; reflexivity.
  - apply only_disposes_panic.
Qed.

Lemma only_disposes_call_factory : only_disposes call_factory.
Proof.
  unfold call_factory.
  apply only_disposes_bind; [apply only_disposes_gets | ].
  intros [fn|]; [ | apply only_disposes_panic].
  repeat (apply only_disposes_bind; [apply only_disposes_gets | intros ?]).
  apply only_disposes_bind; [ | intros _; apply only_disposes_ret].
  apply only_disposes_upd_world; reflexivity.
Qed.

Lemma only_disposes_NewConn : only_disposes NewConn.
Proof.
  unfold NewConn.
  apply only_disposes_bind; [apply only_disposes_call_factory | ].
  intros r; destruct (snd r).
  - apply only_disposes_bind; [apply only_disposes_logf | ].
    intros _; apply only_disposes_ret.
  - apply only_disposes_bind; [apply only_disposes_gets | ].
    intros ?; apply only_disposes_ret.
Qed.

Lemma only_disposes_field_Conn (p : option PoolConn) : only_disposes (field_Conn p).
Proof.
  destruct p; [apply only_disposes_ret | apply only_disposes_panic].
Qed.

Lemma only_disposes_put_locked (conn : Client) : only_disposes (put_locked conn).
Proof.
  unfold put_locked.
  apply only_disposes_bind; [apply only_disposes_gets | ].
  intros [[]|]; [ | apply only_disposes_conn_Close].
  apply only_disposes_bind; [apply only_disposes_on_chan | ].
  intros [|]; [apply only_disposes_ret | apply only_disposes_conn_Close].
Qed.

Lemma only_disposes_put (conn : Client) : only_disposes (put conn).
Proof.
  destruct conn as [id|]; simpl; [apply only_disposes_put_locked | ].
  apply only_disposes_bind; [apply only_disposes_logf | intros _].
  apply only_disposes_bind; [apply only_disposes_NewConn | intros r].
  destruct (snd r); [apply only_disposes_ret | ].
  apply only_disposes_bind; [apply only_disposes_field_Conn | ].
  intros c; apply only_disposes_put_locked.
Qed.

(** With a logger, the unusable branch of a release closes the wrapped
    connection, however the rest of the release ends. *)
Lemma Close_unusable_disposes (h : PoolConn) (s : State) (c : ConnId) :
  has_logger s -> Conn h = Some c ->
  In c (disposed (world (snd (Close_unusable h s)))).
Proof.
  intros Hl Hc.
  rewrite (Close_unusable_prefix h s Hl).
  set (rest := (r <- NewConn ;; conn <- field_Conn (fst r) ;; put conn)).
  assert (Hrest : only_disposes rest).
  { unfold rest.
    apply only_disposes_bind; [apply only_disposes_NewConn | intros r].
    apply only_disposes_bind; [apply only_disposes_field_Conn | intros conn].
    apply only_disposes_put. }
  destruct (Hrest (wrapped_disposed h
              (logged InfoLevel "Closing unusable connection" s))) as [l Hd].
  rewrite Hd; apply in_or_app; left.
  unfold wrapped_disposed; rewrite Hc; simpl.
  apply in_or_app; right; left; reflexivity.
Qed.

(** C10.  Once the flag of a handle is set, it is set after every sequence
    of method calls on the handle, whatever their outcomes, and the wrapped
    connection is the same; so a release afterwards runs the unusable
    branch, which closes the wrapped connection instead of handing it to
    [put]. *)
Theorem unusable_flag_monotone (ops : list HandleOp) (h : PoolConn) (s : State) :
  unusable h = true ->
  let h' := fst (handle_run ops h s) in
  let s' := snd (handle_run ops h s) in
  unusable h' = true /\
  Conn h' = Conn h /\
  PoolConn_Close (Some h') s' = Close_unusable h' s' /\
  (has_logger s' ->
   forall c : ConnId, Conn h = Some c ->
     In c (disposed (world (snd (PoolConn_Close (Some h') s'))))).
Proof.
  intros Hu h' s'.
  destruct (handle_run_flag ops h s Hu) as [Hu' Hc'].
  fold h' in Hu', Hc'.
  assert (HC : PoolConn_Close (Some h') s' = Close_unusable h' s').
  { unfold PoolConn_Close; rewrite Hu'; reflexivity. }
  repeat split; try assumption.
  intros Hl c Hc; rewrite HC.
  apply Close_unusable_disposes; [exact Hl | rewrite Hc'; exact Hc].
Qed.

Lemma unusable_flag_monotone_witness :
  let h := with_unusable true Samples.handle_out in
  let s := snd (Get (Samples.pool_of 1 1 Samples.dial_ok)) in
  let ops := [OpSearch; OpAutoClose (Some (LdapError 49)); OpBind; OpClose;
              OpAutoClose None; OpSetTimeout] in
  let h' := fst (handle_run ops h s) in
  let s' := snd (handle_run ops h s) in
  unusable h' = true /\
  Conn h' = Conn h /\
  PoolConn_Close (Some h') s' = Close_unusable h' s' /\
  (has_logger s' ->
   forall c : ConnId, Conn h = Some c ->
     In c (disposed (world (snd (PoolConn_Close (Some h') s'))))).
Proof.
  intros h s ops.
  exact (unusable_flag_monotone ops h s eq_refl).
Defined.

(** ** Close and construction *)

Lemma drain_all (l : list Client) (s : State) :
  buf (store (world s)) = l ->
  Forall (fun c : Client => c <> None) l ->
  drain the_chan (length l) s =
  (Ret tt,
   {| pool := pool s;
      world :=
        with_disposed (disposed (world s) ++ conn_ids l)
          (with_store {| buf := []; cap := cap (store (world s));
                         closed := closed (store (world s)) |} (world s)) |}).
Proof.
  revert s; induction l as [|c rest IH]; intros s Hb Hn; simpl.
  - unfold ret; destruct s as [p [[b cp cl] n d pr al lg]]; simpl in *.
    subst b; rewrite app_nil_r; reflexivity.
  - inversion Hn as [|? ? Hc Hrest]; subst.
    destruct c as [id|]; [ | congruence].
    unfold bind at 1, on_chan, chan_recv; rewrite Hb.
    unfold bind at 1, conn_Close, upd_world.
    rewrite IH; [ | reflexivity | exact Hrest].
    simpl; unfold with_disposed, with_store; simpl.
    rewrite <- app_assoc; reflexivity.
Qed.

Lemma Close_open (s : State) :
  is_open s -> closed (store (world s)) = false -> store_nonnil s ->
  Close s = (Ret tt, shut s).
Proof.
  unfold is_open, store_nonnil; intros Ho Hc Hn.
  unfold Close, bind at 1, gets; rewrite Ho.
  unfold bind at 1, upd_pool.
  unfold bind at 1.
  unfold bind at 1, on_chan, chan_close; simpl; rewrite Hc.
  unfold bind at 1, gets; simpl.
  rewrite drain_all with (l := buf (store (world s))); [ | reflexivity | exact Hn].
  reflexivity.
Qed.

Lemma Close_is_closed (s : State) :
  is_open s -> closed (store (world s)) = false -> store_nonnil s ->
  is_closed (snd (Close s)).
Proof.
  intros Ho Hc Hn; rewrite (Close_open s Ho Hc Hn); repeat split.
Qed.

Lemma fill_first_failure (fn : PoolFactory) (i : nat) :
  forall (n : nat) (s : State) (e : error),
    is_open s ->
    factory (pool s) = Some fn ->
    closed (store (world s)) = false ->
    store_nonnil s ->
    length (buf (store (world s))) + n <= cap (store (world s)) ->
    i < n ->
    (forall j, j < i ->
       exists c : ConnId,
         fn (parentClient (pool s)) (poolType (pool s))
            (factory_calls (world s) + j) = (Some c, None)) ->
    snd (fn (parentClient (pool s)) (poolType (pool s))
            (factory_calls (world s) + i)) = Some e ->
    fill n s = (Ret (Some (ErrFill e)), fill_failed fn i s).
Proof.
  induction i as [|i IH]; intros n s e Ho Hf Hc Hn Hcap Hi Hok Herr.
  - destruct n as [|k]; [lia | ]; simpl.
    rewrite (bind_ret_eq _ _ _ _ _ _ _ (call_factory_some s fn Hf)).
    rewrite Nat.add_0_r in Herr; rewrite Herr.
    assert (HC : Close (invoked s) = (Ret tt, shut (invoked s))).
    { apply Close_open; assumption. }
    rewrite (bind_ret_eq _ _ _ _ _ _ _ HC).
    unfold ret, shut, fill_failed, created; simpl.
    rewrite app_nil_r, Nat.add_1_r; reflexivity.
  - destruct n as [|k]; [lia | ]; simpl.
    rewrite (bind_ret_eq _ _ _ _ _ _ _ (call_factory_some s fn Hf)).
    destruct (Hok 0) as [c Hc0]; [lia | ].
    rewrite Nat.add_0_r in Hc0; rewrite Hc0; cbn [snd fst].
    assert (Hroom : Nat.ltb (length (buf (store (world s)))) (cap (store (world s))) = true).
    { apply Nat.ltb_lt; lia. }
    unfold bind at 1, on_chan, chan_send; simpl; rewrite Hc, Hroom.
    match goal with
    | |- fill k ?x = _ => set (s1 := x)
    end.
    rewrite (IH k s1 e).
    + unfold fill_failed, s1, created; simpl.
      rewrite Hc0; simpl.
      rewrite <- app_assoc; simpl.
      replace (S (factory_calls (world s) + S i))
        with (factory_calls (world s) + S (S i)) by lia.
      reflexivity.
    + exact Ho.
    + exact Hf.
    + reflexivity.
    + unfold store_nonnil, s1; simpl.
      apply Forall_app; split; [exact Hn | ].
      constructor; [discriminate | constructor].
    + unfold s1; simpl; rewrite length_app; simpl; lia.
    + lia.
    + intros j Hj; unfold s1; simpl.
      destruct (Hok (S j)) as [c' Hc']; [lia | ].
      exists c'; rewrite <- Hc'; f_equal; lia.
    + unfold s1; simpl; rewrite <- Herr; f_equal; f_equal; lia.
Qed.

(** C4.  A construction with valid capacities in which the factory fails
    for the first time at invocation [i] (from 0), before the target is
    reached: [NewChannelPool] returns no pool and the error of the factory
    wrapped as a construction error, after [i + 1] invocations; the
    connections made by the invocations before are all closed, and the
    store is closed and empty. *)
Theorem NewChannelPool_fails_atomically
    (initialCap maxCap : Z) (pt : PoolType) (fn : PoolFactory)
    (client : ClientPtr) (ca : list Z) (interval : Z) (w : World)
    (i : nat) (e : error) :
  (0 <= initialCap <= maxCap)%Z ->
  (0 < maxCap)%Z ->
  i < Z.to_nat initialCap ->
  (forall j, j < i ->
     exists c : ConnId, fn client pt (factory_calls w + j) = (Some c, None)) ->
  snd (fn client pt (factory_calls w + i)) = Some e ->
  exists w' : World,
    NewChannelPool initialCap maxCap pt fn client ca interval w =
      (Ret (None, Some (ErrFill e)), w') /\
    factory_calls w' = factory_calls w + S i /\
    disposed w' = disposed w ++ conn_ids (created fn client pt (factory_calls w) i) /\
    buf (store w') = [] /\
    closed (store w') = true.
Proof.
  intros Hrange Hmax Hi Hok Herr.
  unfold NewChannelPool.
  assert (Hv : ((initialCap <? 0) || (maxCap <=? 0) || (initialCap >? maxCap))%Z = false).
  { rewrite !orb_false_iff; repeat split.
    - apply Z.ltb_ge; lia.
    - apply Z.leb_gt; lia.
    - rewrite Z.gtb_ltb; apply Z.ltb_ge; lia. }
  rewrite Hv.
  match goal with
  | |- context [fill _ ?s0] => set (s := s0)
  end.
  rewrite (fill_first_failure fn i (Z.to_nat initialCap) s e).
  - eexists; split; [reflexivity | ].
    simpl; repeat split; reflexivity.
  - reflexivity.
  - reflexivity.
  - reflexivity.
  - constructor.
  - simpl; lia.
  - exact Hi.
  - exact Hok.
  - exact Herr.
Qed.

Lemma NewChannelPool_fails_atomically_witness :
  exists w' : World,
    NewChannelPool 3 3 SharedPool (Samples.dial_until 2) (Some 0) Samples.codes 30
                   Samples.w0 =
      (Ret (None, Some (ErrFill (OtherError "dial tcp: connection refused"))), w') /\
    factory_calls w' = 0 + 3 /\
    disposed w' = [] ++ conn_ids (created (Samples.dial_until 2) (Some 0) SharedPool 0 2) /\
    buf (store w') = [] /\
    closed (store w') = true.
Proof.
  apply (NewChannelPool_fails_atomically 3 3 SharedPool (Samples.dial_until 2)
           (Some 0) Samples.codes 30 Samples.w0 2
           (OtherError "dial tcp: connection refused")).
  - lia.
  - lia.
  - simpl; lia.
  - intros j Hj; exists j.
    destruct j as [|[|j]]; [reflexivity | reflexivity | lia].
  - reflexivity.
Defined.

(** ** Refill *)

Lemma refill_once_factory_error (s : State) (fn : PoolFactory) (e : error) :
  has_logger s ->
  factory (pool s) = Some fn ->
  snd (next_result fn s) = Some e ->
  refill_once s =
  (Panic NilDereference,
   logged ErrorLevel "failed to create NewConn for pooldap.channelPool %s"
          (invoked s)).
Proof.
  intros Hl Hf Hr; unfold refill_once.
  rewrite (bind_ret_eq _ _ _ _ _ _ _ (NewConn_failed s fn e Hf Hr Hl)).
  reflexivity.
Qed.

(** A refill pass that finds the store below the target and the factory
    failing panics at [conn.MarkUnusable()], on the nil handle. *)
Lemma refill_tick_factory_error (s : State) (fn : PoolFactory) (e : error) :
  has_logger s ->
  is_open s ->
  factory (pool s) = Some fn ->
  snd (next_result fn s) = Some e ->
  (Z.of_nat (length (buf (store (world s)))) < initialConnections (pool s))%Z ->
  refill_tick s =
  (Panic NilDereference,
   logged ErrorLevel "failed to create NewConn for pooldap.channelPool %s"
     (invoked (logged InfoLevel "refreshing LDAP connections" s))).
Proof.
  unfold is_open; intros Hl Ho Hf Hr Hlt; unfold refill_tick.
  rewrite (bind_ret_eq _ _ _ _ _ _ _ (logf_has_logger s _ _ Hl)).
  set (s1 := logged InfoLevel "refreshing LDAP connections" s).
  unfold bind at 1, Len, bind at 1, getConns, gets; simpl; rewrite Ho.
  unfold bind at 1; simpl.
  destruct (Z.to_nat (initialConnections (pool s) -
                      Z.of_nat (length (buf (store (world s)))))) as [|k] eqn:Hk;
    [lia | ].
  simpl.
  apply bind_panic_eq.
  exact (refill_once_factory_error s1 fn e Hl Hf Hr).
Qed.

(** C2.  A pool of one connection, the connection checked out and the
    factory failing from then on: the first refill pass panics on the nil
    handle that [NewConn] returned, after the failure of the factory was
    logged and before [could not refresh connection] is; the refill loop
    ends there, whatever the number of passes it was to make. *)
Theorem RefillPool_factory_error_panics :
  let s := Samples.starved in
  let s' := logged ErrorLevel "failed to create NewConn for pooldap.channelPool %s"
              (invoked (logged InfoLevel "refreshing LDAP connections" s)) in
  is_open s /\
  snd (next_result (Samples.dial_until 1) s) =
    Some (OtherError "dial tcp: connection refused") /\
  refill_tick s = (Panic NilDereference, s') /\
  (forall ticks : nat, RefillPool (S ticks) s = (Panic NilDereference, s')) /\
  ~ In (ErrorLevel, "could not refresh connection"%string) (logs (world s')).
Proof.
  intros s s'.
  assert (Hl : has_logger s) by (unfold has_logger; simpl; discriminate).
  assert (HT : refill_tick s = (Panic NilDereference, s')).
  { apply (refill_tick_factory_error s (Samples.dial_until 1)
             (OtherError "dial tcp: connection refused")).
    - exact Hl.
    - reflexivity.
    - reflexivity.
    - reflexivity.
    - simpl; lia. }
  split; [reflexivity | split; [reflexivity | split; [exact HT | split]]].
  - intros ticks; simpl; apply bind_panic_eq; exact HT.
  - simpl; intros [H | [H | []]]; discriminate.
Qed.

(** ** Invariants of the pool *)

Lemma preserves_bind (P : State -> Prop) (A B : Type) (m : M A) (k : A -> M B) :
  preserves P m -> (forall a, preserves P (k a)) -> preserves P (bind m k).
Proof.
  intros Hm Hk s HP; unfold bind.
  specialize (Hm s HP).
  destruct (m s) as [[a | why | ] s1]; simpl in *.
  - apply Hk; exact Hm.
  - exact Hm.
  - exact Hm.
Qed.

Lemma preserves_same (P : State -> Prop) (A : Type) (m : M A) :
  (forall s, snd (m s) = s) -> preserves P m.
Proof. intros H s HP; rewrite H; exact HP. Qed.

Section Invariants.

Variable P : State -> Prop.

Hypothesis P_frame : about_pool_and_store P.
Hypothesis P_recv : preserves P (on_chan the_chan chan_recv).
Hypothesis P_try_send : forall conn, preserves P (on_chan the_chan (chan_try_send conn)).
Hypothesis P_aliveChecks : forall on, preserves P (AliveChecks on).
Hypothesis P_Close : preserves P Close.

Lemma preserves_ret (A : Type) (a : A) : preserves P (ret a).
Proof. apply preserves_same; reflexivity. Qed.

Lemma preserves_panic (A : Type) (why : PanicKind) : preserves P (panic (A := A) why).
Proof. apply preserves_same; reflexivity. Qed.

Lemma preserves_gets (A : Type) (f : State -> A) : preserves P (gets f).
Proof. apply preserves_same; reflexivity. Qed.

Lemma preserves_upd_world (f : World -> World) :
  (forall w, store (f w) = store w) -> preserves P (upd_world f).
Proof.
  intros Hf s HP; simpl.
  apply (P_frame s); [reflexivity | simpl; rewrite Hf; reflexivity | exact HP].
Qed.

Lemma preserves_logf (lvl : Level) (msg : string) : preserves P (logf lvl msg).
Proof.
  unfold logf, GetLogger, Client_GetLogger, emit.
  apply preserves_bind.
  - apply preserves_bind; [apply preserves_gets | ].
    intros [a|]; [apply preserves_ret | apply preserves_panic].
  - intros _; apply preserves_upd_world; reflexivity.
Qed.

Lemma preserves_conn_Close (conn : Client) : preserves P (conn_Close conn).
Proof.
  destruct conn as [id|]; simpl.
  - apply preserves_upd_world; reflexivity.
  - apply preserves_panic.
Qed.

Lemma preserves_isAlive (conn : Client) : preserves P (isAlive conn).
Proof.
  destruct conn as [id|]; simpl; [ | apply preserves_panic].
  apply preserves_bind; [apply preserves_upd_world; reflexivity | ].
  intros _; apply preserves_gets.
Qed.

Lemma preserves_call_factory : preserves P call_factory.
Proof.
  unfold call_factory.
  apply preserves_bind; [apply preserves_gets | ].
  intros [fn|]; [ | apply preserves_panic].
  repeat (apply preserves_bind; [apply preserves_gets | intros ?]).
  apply preserves_bind; [ | intros _; apply preserves_ret].
  apply preserves_upd_world; reflexivity.
Qed.

Lemma preserves_NewConn : preserves P NewConn.
Proof.
  unfold NewConn.
  apply preserves_bind; [apply preserves_call_factory | ].
  intros r; destruct (snd r).
  - apply preserves_bind; [apply preserves_logf | intros _; apply preserves_ret].
  - apply preserves_bind; [apply preserves_gets | intros ?; apply preserves_ret].
Qed.

Lemma preserves_field_Conn (p : option PoolConn) : preserves P (field_Conn p).
Proof. destruct p; [apply preserves_ret | apply preserves_panic]. Qed.

Lemma preserves_put_locked (conn : Client) : preserves P (put_locked conn).
Proof.
  unfold put_locked.
  apply preserves_bind; [apply preserves_gets | ].
  intros [[]|]; [ | apply preserves_conn_Close].
  apply preserves_bind; [apply P_try_send | ].
  intros [|]; [apply preserves_ret | apply preserves_conn_Close].
Qed.

Lemma preserves_put (conn : Client) : preserves P (put conn).
Proof.
  destruct conn as [id|]; simpl; [apply preserves_put_locked | ].
  apply preserves_bind; [apply preserves_logf | intros _].
  apply preserves_bind; [apply preserves_NewConn | intros r].
  destruct (snd r); [apply preserves_ret | ].
  apply preserves_bind; [apply preserves_field_Conn | ].
  intros c; apply preserves_put_locked.
Qed.

Lemma preserves_Get : preserves P Get.
Proof.
  unfold Get, getConns.
  apply preserves_bind; [apply preserves_gets | ].
  intros [[]|]; [ | apply preserves_ret].
  unfold Get_select.
  apply preserves_bind; [apply P_recv | ].
  intros [id|]; [ | apply preserves_ret].
  apply preserves_bind; [apply preserves_gets | intros ac].
  apply preserves_bind.
  - destruct (negb ac); [apply preserves_ret | apply preserves_isAlive].
  - intros [|].
    + apply preserves_bind; [apply preserves_gets | intros ?; apply preserves_ret].
    + apply preserves_bind; [apply preserves_logf | intros _].
      apply preserves_bind; [apply preserves_conn_Close | intros _].
      apply preserves_NewConn.
Qed.

Lemma preserves_Len : preserves P Len.
Proof.
  unfold Len, getConns.
  apply preserves_bind; [apply preserves_gets | ].
  intros [[]|]; [apply preserves_gets | apply preserves_ret].
Qed.

Lemma preserves_PoolConn_Close (p : option PoolConn) : preserves P (PoolConn_Close p).
Proof.
  destruct p as [h|]; simpl; [ | apply preserves_panic].
  destruct (unusable h); [ | apply preserves_put].
  unfold Close_unusable.
  apply preserves_bind; [apply preserves_logf | intros _].
  apply preserves_bind.
  - destruct (Conn h); [apply preserves_conn_Close | apply preserves_ret].
  - intros _.
    apply preserves_bind; [apply preserves_NewConn | intros r].
    apply preserves_bind; [apply preserves_field_Conn | intros c].
    apply preserves_put.
Qed.

Lemma preserves_AutoClose (p : option PoolConn) (err : option error) :
  preserves P (AutoClose p err).
Proof.
  assert (Hrange : forall h codes, preserves P (AutoClose_range h err codes)).
  { intros h codes; induction codes as [|code rest IH]; simpl.
    - apply preserves_ret.
    - destruct (IsErrorWithCode err code); [ | exact IH].
      apply preserves_bind; [apply preserves_logf | intros _; apply preserves_ret]. }
  assert (Hbody : preserves P (AutoClose_body p err)).
  { destruct p as [h|]; simpl; [apply Hrange | apply preserves_panic]. }
  intros s HP; specialize (Hbody s HP); unfold AutoClose.
  destruct (AutoClose_body p err s) as [[h' | why | ] s1]; simpl in *.
  - exact Hbody.
  - apply (P_frame s1); [reflexivity | reflexivity | exact Hbody].
  - exact Hbody.
Qed.

Lemma preserves_RefillPool (ticks : nat) : preserves P (RefillPool ticks).
Proof.
  assert (Honce : preserves P refill_once).
  { unfold refill_once.
    apply preserves_bind; [apply preserves_NewConn | intros r].
    destruct (snd r).
    - apply preserves_bind.
      + unfold MarkUnusable; destruct (fst r);
          [apply preserves_ret | apply preserves_panic].
      + intros h.
        apply preserves_bind; [apply preserves_PoolConn_Close | ].
        intros _; apply preserves_logf.
    - apply preserves_bind; [apply preserves_field_Conn | ].
      intros c; apply preserves_put. }
  assert (Hloop : forall n, preserves P (refill_loop n)).
  { induction n as [|n IH]; simpl; [apply preserves_ret | ].
    apply preserves_bind; [exact Honce | intros _; exact IH]. }
  induction ticks as [|k IH]; simpl; [apply preserves_ret | ].
  apply preserves_bind; [ | intros _; exact IH].
  unfold refill_tick.
  apply preserves_bind; [apply preserves_logf | intros _].
  apply preserves_bind; [apply preserves_Len | intros i].
  apply preserves_bind; [apply preserves_gets | intros target].
  apply Hloop.
Qed.

(** What the primitive steps keep, every call keeps. *)
Lemma preserves_run_call (c : Call) : preserves P (run_call c).
Proof.
  destruct c; simpl.
  - apply preserves_bind; [apply preserves_Get | intros ?; apply preserves_ret].
  - apply preserves_put.
  - apply P_Close.
  - apply preserves_bind; [apply preserves_Len | intros ?; apply preserves_ret].
  - apply P_aliveChecks.
  - apply preserves_bind; [apply preserves_NewConn | intros ?; apply preserves_ret].
  - apply preserves_PoolConn_Close.
  - apply preserves_bind; [apply preserves_AutoClose | intros ?; apply preserves_ret].
  - apply preserves_RefillPool.
Qed.

End Invariants.

(** The loop of [Close] keeps what a receive and a close of a raw
    connection keep. *)
Lemma preserves_drain (P : State -> Prop) (n : nat) :
  about_pool_and_store P ->
  preserves P (on_chan the_chan chan_recv) ->
  preserves P (drain the_chan n).
Proof.
  intros Hframe Hrecv; induction n as [|n IH]; simpl.
  - apply preserves_ret.
  - apply preserves_bind; [exact Hrecv | intros conn].
    apply preserves_bind; [apply preserves_conn_Close; exact Hframe | ].
    intros _; exact IH.
Qed.

Lemma on_chan_store (A : Type) (op : chan -> Outcome A * chan) (s : State) :
  pool (snd (on_chan the_chan op s)) = pool s /\
  store (world (snd (on_chan the_chan op s))) = snd (op (store (world s))).
Proof.
  unfold on_chan; destruct (op (store (world s))); split; reflexivity.
Qed.

(** *** A closed pool stays closed *)

Lemma is_closed_frame : about_pool_and_store is_closed.
Proof.
  intros s s' Hp Hs (Hn & Hc & Hb); unfold is_closed.
  rewrite <- Hp, <- Hs; repeat split; assumption.
Qed.

Lemma is_closed_recv : preserves is_closed (on_chan the_chan chan_recv).
Proof.
  intros s (Hn & Hc & Hb).
  rewrite (on_chan_recv_drained s Hc Hb); repeat split; assumption.
Qed.

Lemma is_closed_try_send (conn : Client) :
  preserves is_closed (on_chan the_chan (chan_try_send conn)).
Proof.
  intros s (Hn & Hc & Hb).
  destruct (on_chan_store _ (chan_try_send conn) s) as [Hp Hs].
  unfold is_closed; rewrite Hp, Hs.
  unfold chan_try_send; rewrite Hc; repeat split; assumption.
Qed.

Lemma is_closed_Close : preserves is_closed Close.
Proof.
  intros s (Hn & Hc & Hb).
  unfold Close, bind, gets, upd_pool; simpl; rewrite Hn; simpl.
  repeat split; assumption.
Qed.

(** Once the pool is closed, it is closed after every call. *)
Lemma closed_pool_stays_closed (c : Call) : preserves is_closed (run_call c).
Proof.
  apply preserves_run_call.
  - exact is_closed_frame.
  - exact is_closed_recv.
  - exact is_closed_try_send.
  - intros on s H; exact H.
  - exact is_closed_Close.
Qed.

(** *** Occupancy stays within capacity *)

Lemma within_cap_frame : about_pool_and_store within_cap.
Proof.
  intros s s' _ Hs H; unfold within_cap in *; rewrite <- Hs; exact H.
Qed.

Lemma within_cap_recv : preserves within_cap (on_chan the_chan chan_recv).
Proof.
  intros s H; unfold within_cap in *.
  destruct (on_chan_store _ chan_recv s) as [_ Hs]; rewrite Hs.
  unfold chan_recv.
  destruct (buf (store (world s))) as [|x rest] eqn:Hb; simpl in *.
  - destruct (closed (store (world s))); simpl; rewrite Hb; simpl; lia.
  - lia.
Qed.

Lemma within_cap_try_send (conn : Client) :
  preserves within_cap (on_chan the_chan (chan_try_send conn)).
Proof.
  intros s H; unfold within_cap in *.
  destruct (on_chan_store _ (chan_try_send conn) s) as [_ Hs]; rewrite Hs.
  unfold chan_try_send.
  destruct (closed (store (world s))); simpl; [exact H | ].
  destruct (Nat.ltb_spec (length (buf (store (world s)))) (cap (store (world s))));
    simpl; [ | exact H].
  rewrite length_app; simpl; lia.
Qed.

Lemma within_cap_Close : preserves within_cap Close.
Proof.
  unfold Close.
  apply preserves_bind; [apply preserves_gets | intros r].
  apply preserves_bind; [intros s H; exact H | intros _].
  apply preserves_bind; [intros s H; exact H | intros _].
  destruct r as [[]|]; [ | apply preserves_ret].
  apply preserves_bind.
  - intros s H; unfold within_cap in *.
    destruct (on_chan_store _ chan_close s) as [_ Hs]; rewrite Hs.
    unfold chan_close; destruct (closed (store (world s))); exact H.
  - intros _.
    apply preserves_bind; [apply preserves_gets | intros n].
    apply preserves_drain; [exact within_cap_frame | exact within_cap_recv].
Qed.

(** The store never holds more than its capacity. *)
Lemma occupancy_within_capacity (c : Call) : preserves within_cap (run_call c).
Proof.
  apply preserves_run_call.
  - exact within_cap_frame.
  - exact within_cap_recv.
  - exact within_cap_try_send.
  - intros on s H; exact H.
  - exact within_cap_Close.
Qed.

(** *** A pool with a channel has it open, and has a factory *)

Lemma chan_inv_frame : about_pool_and_store chan_inv.
Proof.
  intros s s' Hp Hs H; unfold chan_inv, is_open in *.
  rewrite <- Hp, <- Hs; exact H.
Qed.

Lemma chan_inv_recv : preserves chan_inv (on_chan the_chan chan_recv).
Proof.
  intros s H; unfold chan_inv, is_open in *.
  destruct (on_chan_store _ chan_recv s) as [Hp Hs]; rewrite Hp, Hs.
  unfold chan_recv.
  destruct (buf (store (world s))); [destruct (closed (store (world s))) eqn:Hc | ];
    simpl; try rewrite Hc; exact H.
Qed.

Lemma chan_inv_try_send (conn : Client) :
  preserves chan_inv (on_chan the_chan (chan_try_send conn)).
Proof.
  intros s H; unfold chan_inv, is_open in *.
  destruct (on_chan_store _ (chan_try_send conn) s) as [Hp Hs]; rewrite Hp, Hs.
  unfold chan_try_send.
  destruct (closed (store (world s))) eqn:Hc; simpl; [rewrite Hc; exact H | ].
  destruct (Nat.ltb (length (buf (store (world s)))) (cap (store (world s))));
    simpl; [ | rewrite Hc; exact H].
  intros Ho; split; [reflexivity | exact (proj2 (H Ho))].
Qed.

Lemma nil_conns_frame : about_pool_and_store (fun s => conns (pool s) = None).
Proof. intros s s' Hp _ H; rewrite <- Hp; exact H. Qed.

Lemma Close_nil_conns (s : State) : conns (pool (snd (Close s))) = None.
Proof.
  unfold Close, bind at 1, gets.
  unfold bind at 1, upd_pool.
  set (s1 := {| pool := with_conns None (pool s); world := world s |}).
  assert (H1 : conns (pool s1) = None) by reflexivity.
  revert H1; generalize s1; clear s1.
  change (preserves (fun s => conns (pool s) = None)
            (upd_pool (with_factory None);;
             match conns (pool s) with
             | Some ch =>
                 on_chan ch chan_close;;
                 n <- gets (fun s0 => length (buf (store (world s0))));;
                 drain ch n
             | None => ret tt
             end)).
  apply preserves_bind; [intros s0 H; exact H | intros _].
  destruct (conns (pool s)) as [[]|]; [ | apply preserves_ret].
  apply preserves_bind.
  - intros s0 H; destruct (on_chan_store _ chan_close s0) as [Hp _].
    rewrite Hp; exact H.
  - intros _.
    apply preserves_bind; [apply preserves_gets | intros n].
    apply preserves_drain; [exact nil_conns_frame | ].
    intros s0 H; destruct (on_chan_store _ chan_recv s0) as [Hp _].
    rewrite Hp; exact H.
Qed.

Lemma chan_inv_Close : preserves chan_inv Close.
Proof.
  intros s _ Ho; unfold is_open in Ho.
  rewrite Close_nil_conns in Ho; discriminate.
Qed.

(** In every state that the calls reach from a state with the invariant,
    a pool whose [conns] is not nil has an open channel and a factory. *)
Lemma chan_inv_invariant (c : Call) : preserves chan_inv (run_call c).
Proof.
  apply preserves_run_call.
  - exact chan_inv_frame.
  - exact chan_inv_recv.
  - exact chan_inv_try_send.
  - intros on s H; exact H.
  - exact chan_inv_Close.
Qed.

(** *** Construction establishes the invariants *)

Lemma fill_all (fn : PoolFactory) (n : nat) :
  forall s : State,
    factory (pool s) = Some fn ->
    closed (store (world s)) = false ->
    length (buf (store (world s))) + n <= cap (store (world s)) ->
    (forall j, j < n ->
       exists c : ConnId,
         fn (parentClient (pool s)) (poolType (pool s))
            (factory_calls (world s) + j) = (Some c, None)) ->
    fill n s =
    (Ret None,
     {| pool := pool s;
        world :=
          with_store
            {| buf := buf (store (world s)) ++
                      created fn (parentClient (pool s)) (poolType (pool s))
                              (factory_calls (world s)) n;
               cap := cap (store (world s));
               closed := false |}
            (with_factory_calls (factory_calls (world s) + n) (world s)) |}).
Proof.
  induction n as [|n IH]; intros s Hf Hc Hcap Hok; simpl.
  - unfold ret, created; simpl.
    rewrite app_nil_r, Nat.add_0_r, <- Hc, chan_eta.
    destruct s as [p w]; destruct w; reflexivity.
  - rewrite (bind_ret_eq _ _ _ _ _ _ _ (call_factory_some s fn Hf)).
    destruct (Hok 0) as [c Hc0]; [lia | ].
    rewrite Nat.add_0_r in Hc0; rewrite Hc0; cbn [snd fst].
    assert (Hroom : Nat.ltb (length (buf (store (world s)))) (cap (store (world s))) = true).
    { apply Nat.ltb_lt; lia. }
    unfold bind at 1, on_chan, chan_send; simpl; rewrite Hc, Hroom.
    match goal with
    | |- fill n ?x = _ => set (s1 := x)
    end.
    rewrite (IH s1).
    + unfold s1, created; simpl.
      rewrite Hc0; simpl.
      rewrite <- app_assoc; simpl.
      replace (S (factory_calls (world s) + n))
        with (factory_calls (world s) + S n) by lia.
      reflexivity.
    + exact Hf.
    + reflexivity.
    + unfold s1; simpl; rewrite length_app; simpl; lia.
    + intros j Hj; unfold s1; simpl.
      destruct (Hok (S j)) as [c' Hc']; [lia | ].
      exists c'; rewrite <- Hc'; f_equal; lia.
Qed.

Lemma created_length (fn : PoolFactory) (lc : ClientPtr) (pt : PoolType) (from n : nat) :
  length (created fn lc pt from n) = n.
Proof. unfold created; rewrite length_map, length_seq; reflexivity. Qed.

Lemma created_nonnil (fn : PoolFactory) (lc : ClientPtr) (pt : PoolType) (from n : nat) :
  (forall j, j < n -> exists c : ConnId, fn lc pt (from + j) = (Some c, None)) ->
  Forall (fun c : Client => c <> None) (created fn lc pt from n).
Proof.
  intros Hok; unfold created; apply Forall_forall; intros x Hx.
  apply in_map_iff in Hx; destruct Hx as (j & <- & Hj).
  apply in_seq in Hj.
  destruct (Hok (j - from)) as [c Hc]; [lia | ].
  replace (from + (j - from)) with j in Hc by lia.
  rewrite Hc; discriminate.
Qed.

(** A construction with valid capacities and a factory that succeeds
    returns a pool holding the connections made, as many as asked for,
    in a state that has the invariants. *)
Lemma NewChannelPool_fills
    (initialCap maxCap : Z) (pt : PoolType) (fn : PoolFactory)
    (client : ClientPtr) (ca : list Z) (interval : Z) (w : World) :
  (0 <= initialCap <= maxCap)%Z ->
  (0 < maxCap)%Z ->
  (forall j, j < Z.to_nat initialCap ->
     exists c : ConnId, fn client pt (factory_calls w + j) = (Some c, None)) ->
  exists (c : channelPool) (w' : World),
    NewChannelPool initialCap maxCap pt fn client ca interval w =
      (Ret (Some c, None), w') /\
    buf (store w') = created fn client pt (factory_calls w) (Z.to_nat initialCap) /\
    fst (Len {| pool := c; world := w' |}) = Ret initialCap /\
    chan_inv {| pool := c; world := w' |} /\
    within_cap {| pool := c; world := w' |} /\
    store_nonnil {| pool := c; world := w' |}.
Proof.
  intros Hrange Hmax Hok.
  unfold NewChannelPool.
  assert (Hv : ((initialCap <? 0) || (maxCap <=? 0) || (initialCap >? maxCap))%Z = false).
  { rewrite !orb_false_iff; repeat split.
    - apply Z.ltb_ge; lia.
    - apply Z.leb_gt; lia.
    - rewrite Z.gtb_ltb; apply Z.ltb_ge; lia. }
  rewrite Hv.
  match goal with
  | |- context [fill _ ?s0] => set (s := s0)
  end.
  rewrite (fill_all fn (Z.to_nat initialCap) s).
  - eexists; eexists; split; [reflexivity | ].
    simpl; split; [reflexivity | ].
    split.
    + unfold Len, getConns, bind, gets; simpl.
      rewrite created_length, Z2Nat.id by lia; reflexivity.
    + split; [intros _; split; [reflexivity | discriminate] | ].
      split.
      * unfold within_cap; simpl; rewrite created_length; lia.
      * unfold store_nonnil; simpl; apply created_nonnil; exact Hok.
  - reflexivity.
  - reflexivity.
  - simpl; lia.
  - exact Hok.
Qed.

(** * Further properties of the pool *)

(** ** Construction *)



(** The result of a construction that succeeds, in full. *)
Lemma NewChannelPool_succeeds
    (initialCap maxCap : Z) (pt : PoolType) (fn : PoolFactory)
    (client : ClientPtr) (ca : list Z) (interval : Z) (w : World) :
  (0 <= initialCap <= maxCap)%Z ->
  (0 < maxCap)%Z ->
  (forall j, j < Z.to_nat initialCap ->
     exists c : ConnId, fn client pt (factory_calls w + j) = (Some c, None)) ->
  NewChannelPool initialCap maxCap pt fn client ca interval w =
    (Ret (Some {| conns := Some the_chan; aliveChecks := false; factory := Some fn;
                  closeAt := ca; parentClient := client; poolType := pt;
                  initialConnections := initialCap; maxConnections := maxCap;
                  refreshInterval := interval |}, None),
     with_store
       {| buf := created fn client pt (factory_calls w) (Z.to_nat initialCap);
          cap := Z.to_nat maxCap; closed := false |}
       (with_factory_calls (factory_calls w + Z.to_nat initialCap) w)).
Proof.
  intros Hrange Hmax Hok.
  unfold NewChannelPool.
  assert (Hv : ((initialCap <? 0) || (maxCap <=? 0) || (initialCap >? maxCap))%Z = false).
  { rewrite !orb_false_iff; repeat split.
    - apply Z.ltb_ge; lia.
    - apply Z.leb_gt; lia.
    - rewrite Z.gtb_ltb; apply Z.ltb_ge; lia. }
  rewrite Hv.
  match goal with
  | |- context [fill _ ?s0] => set (s := s0)
  end.
  rewrite (fill_all fn (Z.to_nat initialCap) s).
  - reflexivity.
  - reflexivity.
  - reflexivity.
  - simpl; lia.
  - exact Hok.
Qed.

(** The result of a construction that fails at invocation [i], in full. *)
Lemma NewChannelPool_first_failure
    (initialCap maxCap : Z) (pt : PoolType) (fn : PoolFactory)
    (client : ClientPtr) (ca : list Z) (interval : Z) (w : World)
    (i : nat) (e : error) :
  (0 <= initialCap <= maxCap)%Z ->
  (0 < maxCap)%Z ->
  i < Z.to_nat initialCap ->
  (forall j, j < i ->
     exists c : ConnId, fn client pt (factory_calls w + j) = (Some c, None)) ->
  snd (fn client pt (factory_calls w + i)) = Some e ->
  NewChannelPool initialCap maxCap pt fn client ca interval w =
    (Ret (None, Some (ErrFill e)),
     {| store := {| buf := []; cap := Z.to_nat maxCap; closed := true |};
        factory_calls := factory_calls w + S i;
        disposed := disposed w ++ conn_ids (created fn client pt (factory_calls w) i);
        probes := probes w;
        alive := alive w;
        logs := logs w |}).
Proof.
  intros Hrange Hmax Hi Hok Herr.
  unfold NewChannelPool.
  assert (Hv : ((initialCap <? 0) || (maxCap <=? 0) || (initialCap >? maxCap))%Z = false).
  { rewrite !orb_false_iff; repeat split.
    - apply Z.ltb_ge; lia.
    - apply Z.leb_gt; lia.
    - rewrite Z.gtb_ltb; apply Z.ltb_ge; lia. }
  rewrite Hv.
  match goal with
  | |- context [fill _ ?s0] => set (s := s0)
  end.
  rewrite (fill_first_failure fn i (Z.to_nat initialCap) s e).
  - reflexivity.
  - reflexivity.
  - reflexivity.
  - reflexivity.
  - constructor.
  - simpl; lia.
  - exact Hi.
  - exact Hok.
  - exact Herr.
Qed.

(** A construction with valid capacities and a factory that succeeds
    [initialCap] times returns a pool with liveness checks off and the
    settings it was given; its store holds the connections made, in the
    order they were made; [Len] is [initialCap]; the factory was invoked
    [initialCap] times and no connection was closed. *)
Theorem NewChannelPool_prefills
    (initialCap maxCap : Z) (pt : PoolType) (fn : PoolFactory)
    (client : ClientPtr) (ca : list Z) (interval : Z) (w : World) :
  (0 <= initialCap <= maxCap)%Z ->
  (0 < maxCap)%Z ->
  (forall j, j < Z.to_nat initialCap ->
     exists c : ConnId, fn client pt (factory_calls w + j) = (Some c, None)) ->
  exists (c : channelPool) (w' : World),
    NewChannelPool initialCap maxCap pt fn client ca interval w =
      (Ret (Some c, None), w') /\
    c = {| conns := Some the_chan; aliveChecks := false; factory := Some fn;
           closeAt := ca; parentClient := client; poolType := pt;
           initialConnections := initialCap; maxConnections := maxCap;
           refreshInterval := interval |} /\
    store w' = {| buf := created fn client pt (factory_calls w) (Z.to_nat initialCap);
                  cap := Z.to_nat maxCap; closed := false |} /\
    fst (Len {| pool := c; world := w' |}) = Ret initialCap /\
    factory_calls w' = factory_calls w + Z.to_nat initialCap /\
    disposed w' = disposed w /\
    logs w' = logs w.
Proof.
  intros Hrange Hmax Hok.
  unfold NewChannelPool.
  assert (Hv : ((initialCap <? 0) || (maxCap <=? 0) || (initialCap >? maxCap))%Z = false).
  { rewrite !orb_false_iff; repeat split.
    - apply Z.ltb_ge; lia.
    - apply Z.leb_gt; lia.
    - rewrite Z.gtb_ltb; apply Z.ltb_ge; lia. }
  rewrite Hv.
  match goal with
  | |- context [fill _ ?s0] => set (s := s0)
  end.
  rewrite (fill_all fn (Z.to_nat initialCap) s).
  - eexists; eexists; split; [reflexivity | ].
    simpl; split; [reflexivity | ].
    split; [reflexivity | ].
    split; [ | repeat split; reflexivity].
    unfold Len, getConns, bind, gets; simpl.
    rewrite created_length, Z2Nat.id by lia; reflexivity.
  - reflexivity.
  - reflexivity.
  - simpl; lia.
  - exact Hok.
Qed.

Lemma NewChannelPool_prefills_witness :
  exists (c : channelPool) (w' : World),
    NewChannelPool 2 5 SharedPool Samples.dial_ok (Some 0) Samples.codes 30 Samples.w0 =
      (Ret (Some c, None), w') /\
    c = {| conns := Some the_chan; aliveChecks := false;
           factory := Some Samples.dial_ok;
           closeAt := Samples.codes; parentClient := Some 0; poolType := SharedPool;
           initialConnections := 2; maxConnections := 5;
           refreshInterval := 30 |} /\
    store w' = {| buf := created Samples.dial_ok (Some 0) SharedPool
                           (factory_calls Samples.w0) (Z.to_nat 2);
                  cap := Z.to_nat 5; closed := false |} /\
    fst (Len {| pool := c; world := w' |}) = Ret 2%Z /\
    factory_calls w' = factory_calls Samples.w0 + Z.to_nat 2 /\
    disposed w' = disposed Samples.w0 /\
    logs w' = logs Samples.w0.
Proof.
  apply (NewChannelPool_prefills 2 5 SharedPool Samples.dial_ok (Some 0)
           Samples.codes 30 Samples.w0).
  - lia.
  - lia.
  - intros j _; exists j; reflexivity.
Defined.

(** ** Checkout and release *)

(** The step of [Get] on a head that passes the check. *)
Lemma Get_passing_head (s : State) (id : ConnId) (rest : list Client) :
  is_open s ->
  buf (store (world s)) = Some id :: rest ->
  passes_check s id = true ->
  exists s' : State,
    Get s = (Ret (Some {| Conn := Some id; unusable := false;
                          pc_closeAt := closeAt (pool s) |}, None), s') /\
    pool s' = pool s /\
    store (world s') = {| buf := rest; cap := cap (store (world s));
                          closed := closed (store (world s)) |} /\
    factory_calls (world s') = factory_calls (world s) /\
    disposed (world s') = disposed (world s) /\
    probes (world s') =
      probes (world s) ++ (if aliveChecks (pool s) then [id] else []) /\
    logs (world s') = logs (world s).
Proof.
  unfold is_open, passes_check; intros Ho Hb Hp.
  unfold Get, getConns, bind at 1, gets; rewrite Ho.
  unfold Get_select, bind at 1, on_chan, chan_recv; rewrite Hb.
  unfold bind at 1, gets; simpl.
  destruct (aliveChecks (pool s)) eqn:Ha; simpl in *.
  - unfold bind at 1, isAlive, bind at 1, upd_world, gets; simpl; rewrite Hp.
    eexists; split; [reflexivity | ].
    simpl; repeat split; reflexivity.
  - eexists; split; [reflexivity | ].
    simpl; rewrite app_nil_r; repeat split; reflexivity.
Qed.

(** On an open pool whose oldest stored connection passes the check (the
    checks are off, or the probe succeeds), [Get] returns a usable handle
    on that connection with the codes of the pool, and takes it out of the
    store; the factory is not invoked, nothing is closed, nothing is
    logged, and the connection is probed only when the checks are on. *)
Theorem Get_hands_out_oldest (s : State) (id : ConnId) (rest : list Client) :
  is_open s ->
  buf (store (world s)) = Some id :: rest ->
  passes_check s id = true ->
  exists s' : State,
    Get s = (Ret (Some {| Conn := Some id; unusable := false;
                          pc_closeAt := closeAt (pool s) |}, None), s') /\
    pool s' = pool s /\
    store (world s') = {| buf := rest; cap := cap (store (world s));
                          closed := closed (store (world s)) |} /\
    factory_calls (world s') = factory_calls (world s) /\
    disposed (world s') = disposed (world s) /\
    probes (world s') =
      probes (world s) ++ (if aliveChecks (pool s) then [id] else []) /\
    logs (world s') = logs (world s).
Proof.
  exact (Get_passing_head s id rest).
Qed.

Lemma Get_hands_out_oldest_witness :
  let s := Samples.pool_of 2 5 Samples.dial_ok in
  exists s' : State,
    Get s = (Ret (Some {| Conn := Some 0; unusable := false;
                          pc_closeAt := closeAt (pool s) |}, None), s') /\
    pool s' = pool s /\
    store (world s') = {| buf := [Some 1]; cap := cap (store (world s));
                          closed := closed (store (world s)) |} /\
    factory_calls (world s') = factory_calls (world s) /\
    disposed (world s') = disposed (world s) /\
    probes (world s') =
      probes (world s) ++ (if aliveChecks (pool s) then [0] else []) /\
    logs (world s') = logs (world s).
Proof.
  intros s.
  apply (Get_hands_out_oldest s 0 [Some 1]); reflexivity.
Defined.



(** A nil in the store of an open pool, which [NewChannelPool] puts there
    when the factory returns nil without an error, makes [Get] answer
    [ErrClosed] although the pool is open; the nil is taken out of the
    store and nothing else changes. *)
Theorem Get_nil_in_store_reports_closed (s : State) (rest : list Client) :
  is_open s ->
  buf (store (world s)) = None :: rest ->
  exists s' : State,
    Get s = (Ret (None, Some ErrClosed), s') /\
    is_open s' /\
    pool s' = pool s /\
    world s' = with_store {| buf := rest; cap := cap (store (world s));
                             closed := closed (store (world s)) |} (world s).
Proof.
  unfold is_open; intros Ho Hb.
  unfold Get, getConns, bind at 1, gets; rewrite Ho.
  unfold Get_select, bind at 1, on_chan, chan_recv; rewrite Hb.
  eexists; split; [reflexivity | ].
  simpl; repeat split; exact Ho.
Qed.

Lemma Get_nil_in_store_reports_closed_witness :
  let s := Samples.pool_of 1 2 (fun _ _ _ => (None, None)) in
  exists s' : State,
    Get s = (Ret (None, Some ErrClosed), s') /\
    is_open s' /\
    pool s' = pool s /\
    world s' = with_store {| buf := []; cap := cap (store (world s));
                             closed := closed (store (world s)) |} (world s).
Proof.
  intros s.
  apply (Get_nil_in_store_reports_closed s []); reflexivity.
Defined.

(** ** Close of the pool *)

(** [Close] writes the pool struct once, at its start: the struct it
    leaves is the one it found with [conns] and [factory] set to nil,
    however the draining of the channel ends. *)
Lemma Close_pool (s : State) :
  pool (snd (Close s)) = with_factory None (with_conns None (pool s)).
Proof.
  unfold Close, bind at 1, gets.
  unfold bind at 1, upd_pool.
  unfold bind at 1.
  set (p0 := with_factory None (with_conns None (pool s))).
  set (s2 := {| pool := with_factory None
                          (pool {| pool := with_conns None (pool s); world := world s |});
                world := world {| pool := with_conns None (pool s); world := world s |} |}).
  assert (H2 : pool s2 = p0) by reflexivity.
  revert H2; generalize s2; clear s2.
  change (preserves (fun s0 => pool s0 = p0)
            (match conns (pool s) with
             | Some ch =>
                 on_chan ch chan_close;;
                 n <- gets (fun s0 => length (buf (store (world s0))));;
                 drain ch n
             | None => ret tt
             end)).
  assert (Hframe : about_pool_and_store (fun s0 => pool s0 = p0)).
  { intros a b Hp _ H; rewrite <- Hp; exact H. }
  destruct (conns (pool s)) as [[]|]; [ | apply preserves_ret].
  apply preserves_bind.
  - intros s0 H; destruct (on_chan_store _ chan_close s0) as [Hp _].
    rewrite Hp; exact H.
  - intros _.
    apply preserves_bind; [apply preserves_gets | intros n].
    apply preserves_drain; [exact Hframe | ].
    intros s0 H; destruct (on_chan_store _ chan_recv s0) as [Hp _].
    rewrite Hp; exact H.
Qed.

Lemma Close_without_channel (s : State) :
  conns (pool s) = None ->
  Close s =
  (Ret tt, {| pool := with_factory None (with_conns None (pool s)); world := world s |}).
Proof.
  intros Hn; unfold Close, bind, gets, upd_pool; simpl; rewrite Hn; reflexivity.
Qed.

(** [Close] on an open pool whose store holds no nil returns, having
    closed every stored connection, oldest first; it leaves the pool
    without channel and factory and the channel closed and empty, so that
    [Len] is 0; the factory is not invoked. *)
Theorem Close_disposes_every_idle_connection (s : State) :
  is_open s ->
  chan_inv s ->
  store_nonnil s ->
  exists s' : State,
    Close s = (Ret tt, s') /\
    disposed (world s') =
      disposed (world s) ++ conn_ids (buf (store (world s))) /\
    is_closed s' /\
    factory (pool s') = None /\
    fst (Len s') = Ret 0%Z /\
    factory_calls (world s') = factory_calls (world s).
Proof.
  intros Ho Hinv Hn.
  destruct (Hinv Ho) as [Hc _].
  rewrite (Close_open s Ho Hc Hn).
  eexists; split; [reflexivity | ].
  repeat split.
Qed.

Lemma Close_disposes_every_idle_connection_witness :
  let s := Samples.pool_of 2 5 Samples.dial_ok in
  exists s' : State,
    Close s = (Ret tt, s') /\
    disposed (world s') =
      disposed (world s) ++ conn_ids (buf (store (world s))) /\
    is_closed s' /\
    factory (pool s') = None /\
    fst (Len s') = Ret 0%Z /\
    factory_calls (world s') = factory_calls (world s).
Proof.
  intros s.
  apply (Close_disposes_every_idle_connection s).
  - reflexivity.
  - intros _; split; [reflexivity | discriminate].
  - repeat constructor; discriminate.
Defined.

(** A second [Close] returns and changes nothing, in whatever state the
    first one was called and however it ended. *)
Theorem Close_twice (s : State) :
  Close (snd (Close s)) = (Ret tt, snd (Close s)).
Proof.
  pose proof (Close_pool s) as Hp.
  set (s1 := snd (Close s)) in *.
  assert (Hn : conns (pool s1) = None) by (rewrite Hp; reflexivity).
  rewrite (Close_without_channel s1 Hn).
  f_equal.
  destruct s1 as [p w]; simpl in *; subst p; reflexivity.
Qed.

(** ** After Close *)

Lemma run_calls_preserves (P : State -> Prop) :
  (forall c, preserves P (run_call c)) ->
  forall (cs : list Call) (s : State), P s -> P (run_calls cs s).
Proof.
  intros H cs; induction cs as [|c rest IH]; intros s HP; simpl.
  - exact HP.
  - apply IH, H, HP.
Qed.

(** Once the pool is closed and drained, it stays so through every
    sequence of calls: afterwards [Get] answers [ErrClosed], [Len] is 0
    and [put] of a connection closes it, the store staying empty. *)
Theorem closed_pool_rejects (cs : list Call) (s : State) :
  is_closed s ->
  let s' := run_calls cs s in
  is_closed s' /\
  Get s' = (Ret (None, Some ErrClosed), s') /\
  Len s' = (Ret 0%Z, s') /\
  forall id : ConnId, put (Some id) s' = (Ret tt, dispose id s').
Proof.
  intros Hc s'.
  assert (Hc' : is_closed s').
  { apply run_calls_preserves; [exact closed_pool_stays_closed | exact Hc]. }
  destruct Hc' as (Hn & Hcl & Hb).
  split; [repeat split; assumption | ].
  split; [exact (Get_nil_conns s' Hn) | ].
  split.
  - unfold Len, getConns, bind, gets; rewrite Hn; reflexivity.
  - intros id; exact (put_locked_closed_pool s' id Hn).
Qed.

Lemma closed_pool_rejects_witness :
  let s := snd (Close (Samples.pool_of 2 5 Samples.dial_ok)) in
  let cs := [CallPut (Some 9); CallGet; CallRelease (Some Samples.handle_out);
             CallAliveChecks true; CallClose; CallLen] in
  let s' := run_calls cs s in
  is_closed s' /\
  Get s' = (Ret (None, Some ErrClosed), s') /\
  Len s' = (Ret 0%Z, s') /\
  forall id : ConnId, put (Some id) s' = (Ret tt, dispose id s').
Proof.
  intros s cs.
  apply (closed_pool_rejects cs s).
  repeat split.
Defined.



(** ** Capacity *)

Lemma bounded_by_frame (n : nat) : about_pool_and_store (bounded_by n).
Proof.
  intros s s' _ Hs H; unfold bounded_by in *; rewrite <- Hs; exact H.
Qed.

Lemma bounded_by_recv (n : nat) : preserves (bounded_by n) (on_chan the_chan chan_recv).
Proof.
  intros s [Hc Hl]; unfold bounded_by in *.
  destruct (on_chan_store _ chan_recv s) as [_ Hs]; rewrite Hs.
  unfold chan_recv.
  destruct (buf (store (world s))) as [|x rest] eqn:Hb; simpl in *.
  - destruct (closed (store (world s))); simpl; rewrite Hb; simpl;
      (split; [exact Hc | lia]).
  - split; [exact Hc | lia].
Qed.

Lemma bounded_by_try_send (n : nat) (conn : Client) :
  preserves (bounded_by n) (on_chan the_chan (chan_try_send conn)).
Proof.
  intros s [Hc Hl]; unfold bounded_by in *.
  destruct (on_chan_store _ (chan_try_send conn) s) as [_ Hs]; rewrite Hs.
  unfold chan_try_send.
  destruct (closed (store (world s))); simpl; [split; assumption | ].
  destruct (Nat.ltb_spec (length (buf (store (world s)))) (cap (store (world s))));
    simpl; [ | split; assumption].
  split; [exact Hc | rewrite length_app; simpl; lia].
Qed.

Lemma bounded_by_Close (n : nat) : preserves (bounded_by n) Close.
Proof.
  unfold Close.
  apply preserves_bind; [apply preserves_gets | intros r].
  apply preserves_bind; [intros s H; exact H | intros _].
  apply preserves_bind; [intros s H; exact H | intros _].
  destruct r as [[]|]; [ | apply preserves_ret].
  apply preserves_bind.
  - intros s H; unfold bounded_by in *.
    destruct (on_chan_store _ chan_close s) as [_ Hs]; rewrite Hs.
    unfold chan_close; destruct (closed (store (world s))); exact H.
  - intros _.
    apply preserves_bind; [apply preserves_gets | intros k].
    apply preserves_drain; [apply bounded_by_frame | apply bounded_by_recv].
Qed.

(** Whatever calls are made on the pool, with whatever outcomes, the
    capacity of the channel stays what it was and the store never holds
    more connections than that: what [Len] reports is within it. *)
Theorem occupancy_never_exceeds_capacity (n : nat) (cs : list Call) (s : State) :
  bounded_by n s ->
  let s' := run_calls cs s in
  cap (store (world s')) = n /\
  length (buf (store (world s'))) <= n /\
  exists z : Z, fst (Len s') = Ret z /\ (0 <= z <= Z.of_nat n)%Z.
Proof.
  intros Hb s'.
  assert (Hb' : bounded_by n s').
  { apply run_calls_preserves; [ | exact Hb].
    intros c; apply preserves_run_call.
    - apply bounded_by_frame.
    - apply bounded_by_recv.
    - apply bounded_by_try_send.
    - intros on s0 H; exact H.
    - apply bounded_by_Close. }
  destruct Hb' as [Hc Hl].
  split; [exact Hc | split; [exact Hl | ]].
  unfold Len, getConns, bind, gets.
  destruct (conns (pool s')); simpl.
  - eexists; split; [reflexivity | lia].
  - exists 0%Z; split; [reflexivity | lia].
Qed.

Lemma occupancy_never_exceeds_capacity_witness :
  let s := Samples.pool_of 1 1 Samples.dial_ok in
  let cs := [CallPut (Some 8); CallRefill 2; CallNewConn; CallPut None;
             CallGet; CallRelease (Some Samples.handle_out); CallPut (Some 9)] in
  let s' := run_calls cs s in
  cap (store (world s')) = 1 /\
  length (buf (store (world s'))) <= 1 /\
  exists z : Z, fst (Len s') = Ret z /\ (0 <= z <= Z.of_nat 1)%Z.
Proof.
  intros s cs.
  apply (occupancy_never_exceeds_capacity 1 cs s).
  split; [reflexivity | simpl; lia].
Defined.

(** ** Refill with a working factory, and after Close *)

Lemma refill_once_created (s : State) (fn : PoolFactory) (c : ConnId) :
  is_open s ->
  closed (store (world s)) = false ->
  has_room s = true ->
  factory (pool s) = Some fn ->
  next_result fn s = (Some c, None) ->
  refill_once s = (Ret tt, stored (Some c) (invoked s)).
Proof.
  intros Ho Hc Hr Hf Hn; unfold refill_once.
  assert (Hs : snd (next_result fn s) = None) by (rewrite Hn; reflexivity).
  rewrite (bind_ret_eq _ _ _ _ _ _ _ (NewConn_created s fn Hf Hs)).
  rewrite Hn; simpl.
  unfold bind at 1, ret.
  exact (put_locked_room (invoked s) (Some c) Ho Hc Hr).
Qed.

Lemma refill_loop_all (fn : PoolFactory) (k : nat) :
  forall s : State,
    is_open s ->
    factory (pool s) = Some fn ->
    closed (store (world s)) = false ->
    length (buf (store (world s))) + k <= cap (store (world s)) ->
    (forall j, j < k ->
       exists c : ConnId,
         fn (parentClient (pool s)) (poolType (pool s))
            (factory_calls (world s) + j) = (Some c, None)) ->
    refill_loop k s =
    (Ret tt,
     {| pool := pool s;
        world :=
          with_store
            {| buf := buf (store (world s)) ++
                      created fn (parentClient (pool s)) (poolType (pool s))
                              (factory_calls (world s)) k;
               cap := cap (store (world s));
               closed := false |}
            (with_factory_calls (factory_calls (world s) + k) (world s)) |}).
Proof.
  induction k as [|k IH]; intros s Ho Hf Hc Hcap Hok; simpl.
  - unfold ret, created; simpl.
    rewrite app_nil_r, Nat.add_0_r, <- Hc, chan_eta.
    destruct s as [p w]; destruct w; reflexivity.
  - destruct (Hok 0) as [c Hc0]; [lia | ].
    rewrite Nat.add_0_r in Hc0.
    assert (Hroom : has_room s = true) by (apply Nat.ltb_lt; lia).
    rewrite (bind_ret_eq _ _ _ _ _ _ _ (refill_once_created s fn c Ho Hc Hroom Hf Hc0)).
    rewrite (IH (stored (Some c) (invoked s))).
    + unfold created; simpl.
      rewrite Hc0; simpl.
      rewrite <- app_assoc; simpl.
      replace (S (factory_calls (world s) + k))
        with (factory_calls (world s) + S k) by lia.
      reflexivity.
    + exact Ho.
    + exact Hf.
    + reflexivity.
    + simpl; rewrite length_app; simpl; lia.
    + intros j Hj; simpl.
      destruct (Hok (S j)) as [c' Hc']; [lia | ].
      exists c'; rewrite <- Hc'; f_equal; lia.
Qed.

(** A refill pass on an open pool that has an owner to log through, whose
    factory works and whose channel has room up to the target: it makes as
    many connections as the store is short of the target, none when the
    store is at or above it, and appends them to the store in the order
    they were made; nothing is closed, and afterwards the occupancy is the
    larger of the target and what it was. *)
Theorem refill_tops_up_to_target (s : State) (fn : PoolFactory) :
  has_logger s ->
  is_open s ->
  chan_inv s ->
  factory (pool s) = Some fn ->
  let len := length (buf (store (world s))) in
  let k := Z.to_nat (initialConnections (pool s) - Z.of_nat len) in
  len + k <= cap (store (world s)) ->
  (forall j, j < k ->
     exists c : ConnId,
       fn (parentClient (pool s)) (poolType (pool s))
          (factory_calls (world s) + j) = (Some c, None)) ->
  exists s' : State,
    refill_tick s = (Ret tt, s') /\
    buf (store (world s')) =
      buf (store (world s)) ++
      created fn (parentClient (pool s)) (poolType (pool s))
              (factory_calls (world s)) k /\
    factory_calls (world s') = factory_calls (world s) + k /\
    disposed (world s') = disposed (world s) /\
    pool s' = pool s /\
    fst (Len s') = Ret (Z.max (initialConnections (pool s)) (Z.of_nat len)).
Proof.
  intros Hl Ho Hinv Hf len k Hcap Hok.
  destruct (Hinv Ho) as [Hc _].
  unfold refill_tick.
  rewrite (bind_ret_eq _ _ _ _ _ _ _ (logf_has_logger s _ _ Hl)).
  set (s1 := logged InfoLevel "refreshing LDAP connections" s).
  unfold bind at 1, Len, bind at 1, getConns, gets; simpl.
  unfold is_open in Ho; rewrite Ho.
  unfold bind at 1; simpl.
  fold len; fold k.
  rewrite (refill_loop_all fn k s1 Ho Hf Hc Hcap Hok).
  eexists; split; [reflexivity | ].
  simpl; repeat split.
  unfold Len, getConns, bind, gets; simpl; rewrite Ho; simpl.
  rewrite length_app, created_length; fold len.
  f_equal; unfold k; lia.
Qed.

Lemma refill_tops_up_to_target_witness :
  let s := snd ((Get ;; Get) (Samples.pool_of 3 5 Samples.dial_ok)) in
  let len := length (buf (store (world s))) in
  let k := Z.to_nat (initialConnections (pool s) - Z.of_nat len) in
  exists s' : State,
    refill_tick s = (Ret tt, s') /\
    buf (store (world s')) =
      buf (store (world s)) ++
      created Samples.dial_ok (parentClient (pool s)) (poolType (pool s))
              (factory_calls (world s)) k /\
    factory_calls (world s') = factory_calls (world s) + k /\
    disposed (world s') = disposed (world s) /\
    pool s' = pool s /\
    fst (Len s') = Ret (Z.max (initialConnections (pool s)) (Z.of_nat len)).
Proof.
  intros s len k.
  apply (refill_tops_up_to_target s Samples.dial_ok).
  - unfold has_logger; simpl; discriminate.
  - reflexivity.
  - intros _; split; [reflexivity | discriminate].
  - reflexivity.
  - simpl; lia.
  - intros j _; eexists; reflexivity.
Defined.

(** The refill loop has no way to learn that the pool was closed: after
    [Close], in whatever state and with whatever outcome, the next pass of
    a pool with a positive target finds [Len] at 0, calls the factory that
    [Close] set to nil and panics. *)
Theorem refill_after_Close_panics (s : State) (ticks : nat) :
  has_logger s ->
  (0 < initialConnections (pool s))%Z ->
  RefillPool (S ticks) (snd (Close s)) =
    (Panic NilDereference,
     logged InfoLevel "refreshing LDAP connections" (snd (Close s))).
Proof.
  intros Hl Hpos.
  pose proof (Close_pool s) as Hp.
  set (s1 := snd (Close s)) in *.
  assert (Hl1 : has_logger s1) by (unfold has_logger; rewrite Hp; exact Hl).
  assert (Hn : conns (pool s1) = None) by (rewrite Hp; reflexivity).
  assert (Hf : factory (pool s1) = None) by (rewrite Hp; reflexivity).
  assert (Hi : initialConnections (pool s1) = initialConnections (pool s))
    by (rewrite Hp; reflexivity).
  simpl; apply bind_panic_eq.
  unfold refill_tick.
  rewrite (bind_ret_eq _ _ _ _ _ _ _ (logf_has_logger s1 _ _ Hl1)).
  unfold bind at 1, Len, bind at 1, getConns, gets; simpl; rewrite Hn.
  unfold bind at 1; simpl; rewrite Hi.
  destruct (Z.to_nat (initialConnections (pool s) - 0)) as [|k] eqn:Hk; [lia | ].
  simpl; apply bind_panic_eq.
  unfold refill_once; apply bind_panic_eq.
  unfold NewConn; apply bind_panic_eq.
  unfold call_factory, bind, gets; simpl; rewrite Hf; reflexivity.
Qed.

Lemma refill_after_Close_panics_witness :
  let s := Samples.pool_of 2 5 Samples.dial_ok in
  RefillPool 3 (snd (Close s)) =
    (Panic NilDereference,
     logged InfoLevel "refreshing LDAP connections" (snd (Close s))).
Proof.
  intros s.
  apply (refill_after_Close_panics s 2).
  - unfold has_logger; simpl; discriminate.
  - simpl; lia.
Defined.

(** ** Signals that are not LDAP errors *)

(** A nil error and an error that is not an [*ldap.Error] match no code:
    [AutoClose] returns with the handle and the state as they were,
    whatever the codes and whether or not the pool has a logger. *)
Theorem AutoClose_ignores_other_errors (h : PoolConn) (err : option error) (s : State) :
  (forall rc : Z, err <> Some (LdapError rc)) ->
  AutoClose (Some h) err s = (Ret (Some h), s).
Proof.
  intros Hne.
  assert (Hno : forall code, IsErrorWithCode err code = false).
  { intros code; unfold IsErrorWithCode.
    destruct err as [[ | | | rc | ]|]; try reflexivity.
    exfalso; exact (Hne rc eq_refl). }
  assert (Hrange : forall codes, AutoClose_range h err codes s = (Ret h, s)).
  { induction codes as [|code rest IH]; simpl; [reflexivity | ].
    rewrite Hno; exact IH. }
  unfold AutoClose, AutoClose_body; rewrite Hrange; reflexivity.
Qed.

Lemma AutoClose_ignores_other_errors_witness :
  let s := Samples.pool_of 1 1 Samples.dial_ok in
  AutoClose (Some Samples.handle_out) (Some (OtherError "read tcp: i/o timeout")) s =
    (Ret (Some Samples.handle_out), s).
Proof.
  intros s.
  apply (AutoClose_ignores_other_errors Samples.handle_out
           (Some (OtherError "read tcp: i/o timeout")) s).
  intros rc; discriminate.
Defined.

(** * Properties of the client layer *)

(** ** The factory of the client *)

Lemma clientPoolFactory_cases
    (net : ClientLayer.Network) (lc : ClientLayer.ClientT)
    (ptr : ClientPtr) (pt : PoolType) (n : nat) :
  ClientLayer.clientPoolFactory net lc ptr pt n = (Some n, None) \/
  exists e : error,
    ClientLayer.clientPoolFactory net lc ptr pt n = (None, Some e).
Proof.
  unfold ClientLayer.clientPoolFactory, ClientLayer.clientPoolFactory_run,
    ClientLayer.bind_if_shared.
  destruct (negb (ClientLayer.UseSSL (ClientLayer.Config lc))).
  - destruct (ClientLayer.Dial net _ n) as [e|]; [right; exists e; reflexivity | ].
    destruct (negb (ClientLayer.SkipTLS (ClientLayer.Config lc))).
    + destruct (ClientLayer.StartTLS net _ n) as [e|];
        [right; exists e; reflexivity | ].
      left; destruct pt; [ | reflexivity].
      destruct (_ && _); reflexivity.
    + left; destruct pt; [ | reflexivity].
      destruct (_ && _); reflexivity.
  - destruct (ClientLayer.DialTLS net _ _ n) as [e|];
      [right; exists e; reflexivity | ].
    left; destruct pt; [ | reflexivity].
    destruct (_ && _); reflexivity.
Qed.

Lemma clientPoolFactory_no_error
    (net : ClientLayer.Network) (lc : ClientLayer.ClientT)
    (ptr : ClientPtr) (pt : PoolType) (n : nat) :
  snd (ClientLayer.clientPoolFactory net lc ptr pt n) = None ->
  ClientLayer.clientPoolFactory net lc ptr pt n = (Some n, None).
Proof.
  intros Hs; destruct (clientPoolFactory_cases net lc ptr pt n) as [H | [e He]].
  - exact H.
  - rewrite He in Hs; discriminate Hs.
Qed.

(** [clientPoolFactory] returns either connection [n] and no error, or no
    connection and an error: never a connection together with an error,
    and never nil without one, which is what the pool relies on. *)
Theorem clientPoolFactory_connection_or_error
    (net : ClientLayer.Network) (lc : ClientLayer.ClientT)
    (ptr : ClientPtr) (pt : PoolType) (n : nat) :
  factory_sound (ClientLayer.clientPoolFactory net lc) /\
  (ClientLayer.clientPoolFactory net lc ptr pt n = (Some n, None) \/
   exists e : error,
     ClientLayer.clientPoolFactory net lc ptr pt n = (None, Some e)).
Proof.
  split; [ | apply clientPoolFactory_cases].
  intros ptr' pt' n' Hs.
  rewrite (clientPoolFactory_no_error net lc ptr' pt' n' Hs); discriminate.
Qed.

(** On the StartTLS path the certificate of the server is never verified:
    every [StartTLS] that the factory asks for has [InsecureSkipVerify]
    set, no server name and no client certificate, whatever the
    configuration says; the configured values reach [DialTLS] only. *)
Theorem clientPoolFactory_StartTLS_skips_verification
    (net : ClientLayer.Network) (lc : ClientLayer.ClientT)
    (pt : PoolType) (n : nat) :
  let trace := snd (ClientLayer.clientPoolFactory_run net lc pt n) in
  (forall conn config,
     In (ClientLayer.EvStartTLS conn config) trace ->
     ClientLayer.tls_InsecureSkipVerify config = true /\
     ClientLayer.tls_ServerName config = ""%string /\
     ClientLayer.tls_Certificates config = []) /\
  (forall address config,
     In (ClientLayer.EvDialTLS address config) trace ->
     ClientLayer.tls_InsecureSkipVerify config =
       ClientLayer.InsecureSkipVerify (ClientLayer.Config lc) /\
     ClientLayer.tls_ServerName config =
       ClientLayer.ServerName (ClientLayer.Config lc) /\
     ClientLayer.tls_Certificates config = ClientLayer.ClientCertificates lc).
Proof.
  unfold ClientLayer.clientPoolFactory_run, ClientLayer.bind_if_shared.
  assert (Hcerts :
            (if Nat.ltb 0 (length (ClientLayer.ClientCertificates lc))
             then ClientLayer.ClientCertificates lc else []) =
            ClientLayer.ClientCertificates lc).
  { destruct (ClientLayer.ClientCertificates lc); reflexivity. }
  destruct (negb (ClientLayer.UseSSL (ClientLayer.Config lc)));
    [destruct (ClientLayer.Dial net _ n);
     [ | destruct (negb (ClientLayer.SkipTLS (ClientLayer.Config lc)));
         [destruct (ClientLayer.StartTLS net _ n) | ] ]
    | destruct (ClientLayer.DialTLS net _ _ n) ];
    try (destruct pt; [destruct (_ && _) | ]);
    simpl; split; intros a b Hin;
    repeat (destruct Hin as [Hin | Hin]; try discriminate Hin;
            try (inversion Hin; subst; simpl; rewrite ?Hcerts;
                 repeat split; reflexivity));
    try contradiction.
Qed.

(** The factory binds a connection exactly when it has opened it for the
    shared pool and both [BindDN] and [BindPassword] are set, with those
    credentials; a connection for the bind pool is never bound. *)
Theorem clientPoolFactory_binds_shared_only
    (net : ClientLayer.Network) (lc : ClientLayer.ClientT)
    (pt : PoolType) (n : nat) (conn : ConnId) (dn password : string) :
  In (ClientLayer.EvBind conn dn password)
     (snd (ClientLayer.clientPoolFactory_run net lc pt n)) <->
  pt = SharedPool /\
  fst (ClientLayer.clientPoolFactory_run net lc pt n) = (Some n, None) /\
  ClientLayer.BindDN (ClientLayer.Config lc) <> ""%string /\
  ClientLayer.BindPassword (ClientLayer.Config lc) <> ""%string /\
  conn = n /\
  dn = ClientLayer.BindDN (ClientLayer.Config lc) /\
  password = ClientLayer.BindPassword (ClientLayer.Config lc).
Proof.
  assert (Hne : forall s : string,
             ClientLayer.nonempty s = true <-> s <> ""%string).
  { intros s; unfold ClientLayer.nonempty.
    rewrite negb_true_iff; destruct (String.eqb_spec s ""); split;
      congruence. }
  assert (Hbind : forall trace,
             (forall c d p, ~ In (ClientLayer.EvBind c d p) trace) ->
             In (ClientLayer.EvBind conn dn password)
                (snd (ClientLayer.bind_if_shared (ClientLayer.Config lc) pt n trace)) <->
             pt = SharedPool /\
             fst (ClientLayer.bind_if_shared (ClientLayer.Config lc) pt n trace)
               = (Some n, None) /\
             ClientLayer.BindDN (ClientLayer.Config lc) <> ""%string /\
             ClientLayer.BindPassword (ClientLayer.Config lc) <> ""%string /\
             conn = n /\
             dn = ClientLayer.BindDN (ClientLayer.Config lc) /\
             password = ClientLayer.BindPassword (ClientLayer.Config lc)).
  { intros trace Hno; unfold ClientLayer.bind_if_shared.
    destruct pt.
    - destruct (ClientLayer.nonempty (ClientLayer.BindDN (ClientLayer.Config lc)))
        eqn:H1;
        destruct (ClientLayer.nonempty (ClientLayer.BindPassword (ClientLayer.Config lc)))
          eqn:H2; simpl.
      + apply Hne in H1; apply Hne in H2.
        rewrite in_app_iff; simpl; split.
        * intros [Hin | [Hin | []]]; [exfalso; exact (Hno _ _ _ Hin) | ].
          inversion Hin; subst; repeat split; assumption.
        * intros (_ & _ & _ & _ & -> & -> & ->); right; left; reflexivity.
      + split; [intros Hin; exfalso; exact (Hno _ _ _ Hin) | ].
        intros (_ & _ & _ & Hp & _); apply Hne in Hp; congruence.
      + split; [intros Hin; exfalso; exact (Hno _ _ _ Hin) | ].
        intros (_ & _ & Hd & _); apply Hne in Hd; congruence.
      + split; [intros Hin; exfalso; exact (Hno _ _ _ Hin) | ].
        intros (_ & _ & Hd & _); apply Hne in Hd; congruence.
    - simpl; split; [intros Hin; exfalso; exact (Hno _ _ _ Hin) | ].
      intros (Hpt & _); discriminate Hpt. }
  assert (Hfail : forall (e : error) trace,
             (forall c d p, ~ In (ClientLayer.EvBind c d p) trace) ->
             In (ClientLayer.EvBind conn dn password) trace <->
             pt = SharedPool /\
             (@None ConnId, Some e) = (Some n, None) /\
             ClientLayer.BindDN (ClientLayer.Config lc) <> ""%string /\
             ClientLayer.BindPassword (ClientLayer.Config lc) <> ""%string /\
             conn = n /\
             dn = ClientLayer.BindDN (ClientLayer.Config lc) /\
             password = ClientLayer.BindPassword (ClientLayer.Config lc)).
  { intros e trace Hno; split; [intros Hin; exfalso; exact (Hno _ _ _ Hin) | ].
    intros (_ & Habs & _); discriminate Habs. }
  unfold ClientLayer.clientPoolFactory_run.
  destruct (negb (ClientLayer.UseSSL (ClientLayer.Config lc))).
  - destruct (ClientLayer.Dial net _ n) as [e|].
    + apply Hfail; intros c d p [H | []]; discriminate H.
    + destruct (negb (ClientLayer.SkipTLS (ClientLayer.Config lc))).
      * destruct (ClientLayer.StartTLS net _ n) as [e|].
        -- apply Hfail; intros c d p [H | [H | []]]; discriminate H.
        -- apply Hbind; intros c d p [H | [H | []]]; discriminate H.
      * apply Hbind; intros c d p [H | []]; discriminate H.
  - destruct (ClientLayer.DialTLS net _ _ n) as [e|].
    + apply Hfail; intros c d p [H | []]; discriminate H.
    + apply Hbind; intros c d p [H | []]; discriminate H.
Qed.

(** ** The two pools of a client *)

Lemma created_by_clientPoolFactory
    (net : ClientLayer.Network) (lc : ClientLayer.ClientT)
    (ptr : ClientPtr) (pt : PoolType) (k : nat) :
  forall from : nat,
    (forall j, j < k ->
       snd (ClientLayer.clientPoolFactory net lc ptr pt (from + j)) = None) ->
    created (ClientLayer.clientPoolFactory net lc) ptr pt from k =
    map Some (seq from k).
Proof.
  unfold created; induction k as [|k IH]; intros from Hok; simpl.
  - reflexivity.
  - rewrite (clientPoolFactory_no_error net lc ptr pt from).
    + simpl; f_equal; apply IH.
      intros j Hj; replace (S from + j) with (from + S j) by lia.
      apply Hok; lia.
    + replace from with (from + 0) by lia; apply Hok; lia.
Qed.

Lemma conn_ids_map_Some (l : list ConnId) : conn_ids (map Some l) = l.
Proof.
  unfold conn_ids; induction l as [|x l IH]; simpl; [reflexivity | ].
  f_equal; exact IH.
Qed.

Lemma succeed_upto
    (net : ClientLayer.Network) (lc : ClientLayer.ClientT)
    (ptr : ClientPtr) (pt : PoolType) (from k : nat) :
  (forall j, j < k ->
     snd (ClientLayer.clientPoolFactory net lc ptr pt (from + j)) = None) ->
  forall j, j < k ->
    exists c : ConnId,
      ClientLayer.clientPoolFactory net lc ptr pt (from + j) = (Some c, None).
Proof.
  intros Hok j Hj; exists (from + j).
  apply clientPoolFactory_no_error, Hok, Hj.
Qed.

(** [InitClientPool] with valid capacities and a network that lets every
    connection through: it returns no error and leaves both pools set,
    open and filled to their initial sizes, the search pool with the
    connections made first and the bind pool with those made next; the
    codes of both are [{200}], and nothing was closed. *)
Theorem InitClientPool_makes_both_pools
    (net : ClientLayer.Network) (iS mS iB mB interval : Z) (sys : ClientLayer.Sys) :
  (0 <= iS <= mS)%Z -> (0 < mS)%Z ->
  (0 <= iB <= mB)%Z -> (0 < mB)%Z ->
  let fn := ClientLayer.clientPoolFactory net (ClientLayer.client sys) in
  let n0 := factory_calls (ClientLayer.outside sys) in
  (forall j, j < Z.to_nat iS -> snd (fn (Some 0) SharedPool (n0 + j)) = None) ->
  (forall j, j < Z.to_nat iB ->
     snd (fn (Some 0) BindPool (n0 + Z.to_nat iS + j)) = None) ->
  exists sys' : ClientLayer.Sys,
    ClientLayer.InitClientPool net iS mS iB mB interval sys = (Ret None, sys') /\
    ClientLayer.searchPool (ClientLayer.client sys') =
      Some {| conns := Some the_chan; aliveChecks := false; factory := Some fn;
              closeAt := [200%Z]; parentClient := Some 0; poolType := SharedPool;
              initialConnections := iS; maxConnections := mS;
              refreshInterval := interval |} /\
    ClientLayer.bindPool (ClientLayer.client sys') =
      Some {| conns := Some the_chan; aliveChecks := false; factory := Some fn;
              closeAt := [200%Z]; parentClient := Some 0; poolType := BindPool;
              initialConnections := iB; maxConnections := mB;
              refreshInterval := interval |} /\
    ClientLayer.searchStore sys' =
      {| buf := map Some (seq n0 (Z.to_nat iS));
         cap := Z.to_nat mS; closed := false |} /\
    ClientLayer.bindStore sys' =
      {| buf := map Some (seq (n0 + Z.to_nat iS) (Z.to_nat iB));
         cap := Z.to_nat mB; closed := false |} /\
    factory_calls (ClientLayer.outside sys') = n0 + Z.to_nat iS + Z.to_nat iB /\
    disposed (ClientLayer.outside sys') = disposed (ClientLayer.outside sys).
Proof.
  intros HS HmS HB HmB fn n0 HokS HokB.
  unfold ClientLayer.InitClientPool; fold fn.
  rewrite (NewChannelPool_succeeds iS mS SharedPool fn (Some 0)
             ClientLayer.closeAt_codes interval (ClientLayer.outside sys) HS HmS
             (succeed_upto net _ (Some 0) SharedPool n0 _ HokS)).
  match goal with
  | |- context [NewChannelPool iB mB BindPool fn _ _ _ ?w] => set (w1 := w)
  end.
  assert (Hn1 : factory_calls w1 = n0 + Z.to_nat iS) by reflexivity.
  assert (HokB' : forall j, j < Z.to_nat iB ->
            exists c, fn (Some 0) BindPool (factory_calls w1 + j) = (Some c, None)).
  { rewrite Hn1; exact (succeed_upto net _ (Some 0) BindPool _ _ HokB). }
  rewrite (NewChannelPool_succeeds iB mB BindPool fn (Some 0)
             ClientLayer.closeAt_codes interval w1 HB HmB HokB').
  pose proof (created_by_clientPoolFactory net _ (Some 0) SharedPool _ n0 HokS) as HcS.
  pose proof (created_by_clientPoolFactory net _ (Some 0) BindPool _ _ HokB) as HcB.
  eexists; split; [reflexivity | ].
  simpl; unfold fn, n0 in *.
  rewrite HcS, HcB.
  repeat split.
Qed.

Lemma InitClientPool_makes_both_pools_witness :
  let sys := {| ClientLayer.client :=
                  {| ClientLayer.Config := ClientSamples.config;
                     ClientLayer.ClientCertificates := [];
                     ClientLayer.searchPool := None;
                     ClientLayer.bindPool := None |};
                ClientLayer.searchStore := chan_make 0;
                ClientLayer.bindStore := chan_make 0;
                ClientLayer.outside := Samples.w0 |} in
  let fn := ClientLayer.clientPoolFactory ClientSamples.net_ok (ClientLayer.client sys) in
  let n0 := factory_calls (ClientLayer.outside sys) in
  exists sys' : ClientLayer.Sys,
    ClientLayer.InitClientPool ClientSamples.net_ok 2 3 1 2 30 sys = (Ret None, sys') /\
    ClientLayer.searchPool (ClientLayer.client sys') =
      Some {| conns := Some the_chan; aliveChecks := false; factory := Some fn;
              closeAt := [200%Z]; parentClient := Some 0; poolType := SharedPool;
              initialConnections := 2; maxConnections := 3;
              refreshInterval := 30 |} /\
    ClientLayer.bindPool (ClientLayer.client sys') =
      Some {| conns := Some the_chan; aliveChecks := false; factory := Some fn;
              closeAt := [200%Z]; parentClient := Some 0; poolType := BindPool;
              initialConnections := 1; maxConnections := 2;
              refreshInterval := 30 |} /\
    ClientLayer.searchStore sys' =
      {| buf := map Some (seq n0 (Z.to_nat 2));
         cap := Z.to_nat 3; closed := false |} /\
    ClientLayer.bindStore sys' =
      {| buf := map Some (seq (n0 + Z.to_nat 2) (Z.to_nat 1));
         cap := Z.to_nat 2; closed := false |} /\
    factory_calls (ClientLayer.outside sys') = n0 + Z.to_nat 2 + Z.to_nat 1 /\
    disposed (ClientLayer.outside sys') = disposed (ClientLayer.outside sys).
Proof.
  intros sys fn n0.
  apply (InitClientPool_makes_both_pools ClientSamples.net_ok 2 3 1 2 30 sys).
  - lia.
  - lia.
  - lia.
  - lia.
  - intros j _; reflexivity.
  - intros j _; reflexivity.
Defined.

(** When the bind pool cannot be filled, [InitClientPool] returns the
    construction error with the client as it was, its pool fields unset:
    the search pool that was made first is dropped as it is.  The
    connections made for the bind pool are closed; those of the search
    pool are not, and no store of the client holds them. *)
Theorem InitClientPool_bind_failure_leaks_search_pool
    (net : ClientLayer.Network) (iS mS iB mB interval : Z) (sys : ClientLayer.Sys)
    (i : nat) (e : error) :
  (0 <= iS <= mS)%Z -> (0 < mS)%Z ->
  (0 <= iB <= mB)%Z -> (0 < mB)%Z ->
  i < Z.to_nat iB ->
  let fn := ClientLayer.clientPoolFactory net (ClientLayer.client sys) in
  let n0 := factory_calls (ClientLayer.outside sys) in
  (forall j, j < Z.to_nat iS -> snd (fn (Some 0) SharedPool (n0 + j)) = None) ->
  (forall j, j < i -> snd (fn (Some 0) BindPool (n0 + Z.to_nat iS + j)) = None) ->
  snd (fn (Some 0) BindPool (n0 + Z.to_nat iS + i)) = Some e ->
  exists sys' : ClientLayer.Sys,
    ClientLayer.InitClientPool net iS mS iB mB interval sys =
      (Ret (Some (ErrFill e)), sys') /\
    ClientLayer.client sys' = ClientLayer.client sys /\
    ClientLayer.searchStore sys' = ClientLayer.searchStore sys /\
    ClientLayer.bindStore sys' = ClientLayer.bindStore sys /\
    factory_calls (ClientLayer.outside sys') = n0 + Z.to_nat iS + S i /\
    disposed (ClientLayer.outside sys') =
      disposed (ClientLayer.outside sys) ++ seq (n0 + Z.to_nat iS) i /\
    forall c : ConnId,
      n0 <= c < n0 + Z.to_nat iS ->
      ~ In c (disposed (ClientLayer.outside sys)) ->
      ~ In c (disposed (ClientLayer.outside sys')).
Proof.
  intros HS HmS HB HmB Hi fn n0 HokS HokB Herr.
  unfold ClientLayer.InitClientPool; fold fn.
  rewrite (NewChannelPool_succeeds iS mS SharedPool fn (Some 0)
             ClientLayer.closeAt_codes interval (ClientLayer.outside sys) HS HmS
             (succeed_upto net _ (Some 0) SharedPool n0 _ HokS)).
  match goal with
  | |- context [NewChannelPool iB mB BindPool fn _ _ _ ?w] => set (w1 := w)
  end.
  assert (Hn1 : factory_calls w1 = n0 + Z.to_nat iS) by reflexivity.
  assert (HokB' : forall j, j < i ->
            exists c, fn (Some 0) BindPool (factory_calls w1 + j) = (Some c, None)).
  { rewrite Hn1; exact (succeed_upto net _ (Some 0) BindPool _ _ HokB). }
  assert (Herr' : snd (fn (Some 0) BindPool (factory_calls w1 + i)) = Some e).
  { rewrite Hn1; exact Herr. }
  rewrite (NewChannelPool_first_failure iB mB BindPool fn (Some 0)
             ClientLayer.closeAt_codes interval w1 i e HB HmB Hi HokB' Herr').
  pose proof (created_by_clientPoolFactory net _ (Some 0) BindPool _ _ HokB) as HcB.
  eexists; split; [reflexivity | ].
  simpl; unfold fn, n0 in *.
  rewrite HcB, conn_ids_map_Some.
  repeat split.
  intros c Hc Hnot Hin.
  apply in_app_or in Hin; destruct Hin as [Hin | Hin]; [exact (Hnot Hin) | ].
  apply in_seq in Hin; lia.
Qed.

Lemma InitClientPool_bind_failure_leaks_search_pool_witness :
  let sys := {| ClientLayer.client :=
                  {| ClientLayer.Config := ClientSamples.config;
                     ClientLayer.ClientCertificates := [];
                     ClientLayer.searchPool := None;
                     ClientLayer.bindPool := None |};
                ClientLayer.searchStore := chan_make 0;
                ClientLayer.bindStore := chan_make 0;
                ClientLayer.outside := Samples.w0 |} in
  let e := OtherError "dial tcp: connection refused" in
  exists sys' : ClientLayer.Sys,
    ClientLayer.InitClientPool (ClientSamples.net_until 3) 2 3 2 2 30 sys =
      (Ret (Some (ErrFill e)), sys') /\
    ClientLayer.client sys' = ClientLayer.client sys /\
    ClientLayer.searchStore sys' = ClientLayer.searchStore sys /\
    ClientLayer.bindStore sys' = ClientLayer.bindStore sys /\
    factory_calls (ClientLayer.outside sys') = 0 + Z.to_nat 2 + 2 /\
    disposed (ClientLayer.outside sys') =
      disposed (ClientLayer.outside sys) ++ seq (0 + Z.to_nat 2) 1 /\
    forall c : ConnId,
      0 <= c < 0 + Z.to_nat 2 ->
      ~ In c (disposed (ClientLayer.outside sys)) ->
      ~ In c (disposed (ClientLayer.outside sys')).
Proof.
  intros sys e.
  apply (InitClientPool_bind_failure_leaks_search_pool
           (ClientSamples.net_until 3) 2 3 2 2 30 sys 1 e).
  - lia.
  - lia.
  - lia.
  - lia.
  - simpl; lia.
  - intros j Hj; destruct j as [|[|j]]; [reflexivity | reflexivity | simpl in Hj; lia].
  - intros j Hj; destruct j as [|j]; [reflexivity | lia].
  - reflexivity.
Defined.

(** ** Calls through a pool of the client *)

Lemma on_pool_run (A : Type) (k : ClientLayer.WhichPool) (m : M A)
    (sys : ClientLayer.Sys) (p : channelPool) (o : Outcome A) (s' : State) :
  ClientLayer.pool_field k (ClientLayer.client sys) = Some p ->
  m (ClientLayer.view k p sys) = (o, s') ->
  ClientLayer.on_pool k m sys = (o, ClientLayer.write_back k s' sys).
Proof.
  intros Hp Hm; unfold ClientLayer.on_pool; rewrite Hp, Hm; reflexivity.
Qed.

Lemma on_pool_nil (A : Type) (k : ClientLayer.WhichPool) (m : M A)
    (sys : ClientLayer.Sys) :
  ClientLayer.pool_field k (ClientLayer.client sys) = None ->
  ClientLayer.on_pool k m sys = (Panic NilDereference, sys).
Proof.
  intros Hp; unfold ClientLayer.on_pool; rewrite Hp; reflexivity.
Qed.

Lemma pool_field_write_back (k : ClientLayer.WhichPool) (s : State)
    (sys : ClientLayer.Sys) :
  ClientLayer.pool_field k (ClientLayer.client (ClientLayer.write_back k s sys)) =
  Some (pool s).
Proof. destruct k; reflexivity. Qed.

Lemma view_write_back (k : ClientLayer.WhichPool) (s : State) (sys : ClientLayer.Sys) :
  ClientLayer.view k (pool s) (ClientLayer.write_back k s sys) = s.
Proof.
  destruct k; unfold ClientLayer.view; simpl;
    rewrite with_store_same; apply state_eta.
Qed.

(** A call on a pool right after another call on it runs in the state
    that the first one left. *)
Lemma on_pool_again (A : Type) (k : ClientLayer.WhichPool) (m : M A)
    (s : State) (sys : ClientLayer.Sys) (o : Outcome A) (s' : State) :
  m s = (o, s') ->
  ClientLayer.on_pool k m (ClientLayer.write_back k s sys) =
  (o, ClientLayer.write_back k s' (ClientLayer.write_back k s sys)).
Proof.
  intros Hm.
  apply (on_pool_run A k m _ (pool s)).
  - apply pool_field_write_back.
  - rewrite view_write_back; exact Hm.
Qed.

Lemma AutoClose_no_match (h : PoolConn) (err : option error) (s : State) :
  (forall code, In code (pc_closeAt h) -> IsErrorWithCode err code = false) ->
  AutoClose (Some h) err s = (Ret (Some h), s).
Proof.
  intros Hno.
  assert (Hrange : forall codes,
             (forall code, In code codes -> IsErrorWithCode err code = false) ->
             AutoClose_range h err codes s = (Ret h, s)).
  { induction codes as [|code rest IH]; intros Hc; simpl; [reflexivity | ].
    rewrite (Hc code) by (left; reflexivity).
    apply IH; intros c Hin; apply Hc; right; exact Hin. }
  unfold AutoClose, AutoClose_body; rewrite (Hrange _ Hno); reflexivity.
Qed.

(** ** Lookups of users *)

(** Without a connection from the search pool there is no error to get
    from [GetUser]: when the pool field is nil, as [NewClient] leaves it
    when it fails, and when the pool is closed, [GetUser] panics; in the
    second case [Get] did return [ErrClosed], but the deferred release
    of the nil handle dereferences it.  [Authenticate] and
    [GetUserGroups], which begin with [GetUser], panic with it. *)
Theorem GetUser_panics_without_connection
    (dir : ClientLayer.Directory) (username password : string)
    (sys : ClientLayer.Sys) :
  (ClientLayer.searchPool (ClientLayer.client sys) = None \/
   exists p : channelPool,
     ClientLayer.searchPool (ClientLayer.client sys) = Some p /\
     conns p = None) ->
  fst (ClientLayer.GetUser dir username sys) = Panic NilDereference /\
  fst (ClientLayer.Authenticate dir username password sys) = Panic NilDereference /\
  fst (ClientLayer.GetUserGroups dir username sys) = Panic NilDereference.
Proof.
  intros H.
  assert (HG : fst (ClientLayer.GetUser dir username sys) = Panic NilDereference).
  { unfold ClientLayer.GetUser, ClientLayer.cbind at 1, ClientLayer.cgets.
    unfold ClientLayer.cbind at 1.
    destruct H as [Hn | (p & Hp & Hc)].
    - rewrite (on_pool_nil _ ClientLayer.OfSearch Get sys Hn); reflexivity.
    - set (s := ClientLayer.view ClientLayer.OfSearch p sys).
      assert (HGet : Get s = (Ret (None, Some ErrClosed), s))
        by (apply Get_nil_conns; exact Hc).
      rewrite (on_pool_run _ ClientLayer.OfSearch Get sys p _ _ Hp HGet).
      unfold ClientLayer.deferred_Close; cbn [fst snd].
      unfold ClientLayer.cbind at 1.
      assert (HA : AutoClose None (Some ErrClosed) s =
                   (Ret None,
                    snd (emit DebugLevel "rescued panic in (p *PoolConn) AutoClose %s" s)))
        by reflexivity.
      rewrite (on_pool_again _ ClientLayer.OfSearch _ s sys _ _ HA).
      unfold ClientLayer.cret.
      match goal with
      | |- context [ClientLayer.on_pool ?k (PoolConn_Close None) ?x] =>
          destruct (ClientLayer.on_pool k (PoolConn_Close None) x)
            as [[[] | why | ] sys2] eqn:HC
      end.
      + unfold ClientLayer.on_pool in HC.
        destruct (ClientLayer.pool_field _ _); simpl in HC; discriminate HC.
      + unfold ClientLayer.on_pool in HC.
        destruct (ClientLayer.pool_field _ _); simpl in HC;
          inversion HC; reflexivity.
      + unfold ClientLayer.on_pool in HC.
        destruct (ClientLayer.pool_field _ _); simpl in HC; discriminate HC. }
  split; [exact HG | split].
  - unfold ClientLayer.Authenticate, ClientLayer.cbind at 1.
    destruct (ClientLayer.GetUser dir username sys) as [[u | why | ] sys1];
      simpl in HG; try discriminate HG.
    inversion HG; reflexivity.
  - unfold ClientLayer.GetUserGroups, ClientLayer.cbind at 1, ClientLayer.cgets.
    unfold ClientLayer.cbind at 1.
    destruct (ClientLayer.GetUser dir username sys) as [[u | why | ] sys1];
      simpl in HG; try discriminate HG.
    inversion HG; reflexivity.
Qed.

Lemma GetUser_panics_without_connection_witness :
  let sys := ClientSamples.search_closed in
  fst (ClientLayer.GetUser ClientSamples.directory "fry" sys) = Panic NilDereference /\
  fst (ClientLayer.Authenticate ClientSamples.directory "fry" "fry" sys)
    = Panic NilDereference /\
  fst (ClientLayer.GetUserGroups ClientSamples.directory "fry" sys)
    = Panic NilDereference.
Proof.
  intros sys.
  apply (GetUser_panics_without_connection ClientSamples.directory "fry" "fry" sys).
  right; eexists; split; vm_compute; reflexivity.
Defined.

(** The release of a usable handle on the state its checkout left. *)
Lemma release_after_checkout (s s1 : State) (id : ConnId) (rest : list Client) :
  is_open s ->
  chan_inv s ->
  within_cap s ->
  buf (store (world s)) = Some id :: rest ->
  pool s1 = pool s ->
  store (world s1) = {| buf := rest; cap := cap (store (world s));
                        closed := closed (store (world s)) |} ->
  PoolConn_Close (Some {| Conn := Some id; unusable := false;
                          pc_closeAt := closeAt (pool s) |}) s1 =
  (Ret tt, stored (Some id) s1).
Proof.
  intros Ho Hinv Hcap Hb Hpool Hstore.
  destruct (Hinv Ho) as [Hc _].
  unfold PoolConn_Close; simpl.
  apply put_locked_room.
  - unfold is_open; rewrite Hpool; exact Ho.
  - rewrite Hstore; exact Hc.
  - unfold has_room; rewrite Hstore; simpl.
    unfold within_cap in Hcap; rewrite Hb in Hcap; simpl in Hcap.
    apply Nat.ltb_lt; lia.
Qed.

(** [GetUser] on a client whose search pool is open and hands out a
    connection: whatever the server answers short of an error with one of
    the codes of the pool, [GetUser] returns, with [ErrNotFound] for no
    entry, [ErrNotUnique] for more than one, the attributes of the entry
    for exactly one and the error of the server otherwise; and the
    connection is back in the store of the search pool, at its tail.  The
    factory is not invoked, nothing is closed, the bind pool is not
    touched. *)
Theorem GetUser_returns_the_connection
    (dir : ClientLayer.Directory) (username : string) (sys : ClientLayer.Sys)
    (p : channelPool) (id : ConnId) (rest : list Client)
    (sr : list ClientLayer.Entry + error) :
  ClientLayer.searchPool (ClientLayer.client sys) = Some p ->
  let s := ClientLayer.view ClientLayer.OfSearch p sys in
  let cfg := ClientLayer.Config (ClientLayer.client sys) in
  is_open s ->
  chan_inv s ->
  within_cap s ->
  buf (store (world s)) = Some id :: rest ->
  passes_check s id = true ->
  ClientLayer.Search dir id (ClientLayer.user_request dir cfg username) = sr ->
  (forall e code,
     sr = inr e -> In code (closeAt p) -> IsErrorWithCode (Some e) code = false) ->
  exists sys' : ClientLayer.Sys,
    ClientLayer.GetUser dir username sys =
      (Ret match sr with
           | inr e => (ClientLayer.no_entries, Some e)
           | inl [] => (ClientLayer.no_entries, Some ClientLayer.ErrNotFound)
           | inl [e0] => (ClientLayer.user_attributes cfg e0, None)
           | inl (_ :: _ :: _) =>
               (ClientLayer.no_entries, Some ClientLayer.ErrNotUnique)
           end, sys') /\
    buf (ClientLayer.searchStore sys') = rest ++ [Some id] /\
    ClientLayer.searchPool (ClientLayer.client sys') = Some p /\
    ClientLayer.bindPool (ClientLayer.client sys') =
      ClientLayer.bindPool (ClientLayer.client sys) /\
    ClientLayer.bindStore sys' = ClientLayer.bindStore sys /\
    factory_calls (ClientLayer.outside sys') =
      factory_calls (ClientLayer.outside sys) /\
    disposed (ClientLayer.outside sys') = disposed (ClientLayer.outside sys).
Proof.
  intros Hp s cfg Ho Hinv Hcap Hb Hpass Hsr Hno.
  destruct (Get_passing_head s id rest Ho Hb Hpass)
    as (s1 & HG & Hpool & Hstore & Hcalls & Hdisp & _ & _).
  assert (Hps : pool s = p) by reflexivity.
  pose proof (release_after_checkout s s1 id rest Ho Hinv Hcap Hb Hpool Hstore) as HC.
  rewrite Hps in HC, HG.
  set (h := {| Conn := Some id; unusable := false; pc_closeAt := closeAt p |}) in *.
  unfold ClientLayer.GetUser, ClientLayer.cbind at 1, ClientLayer.cgets.
  unfold ClientLayer.cbind at 1.
  rewrite (on_pool_run _ ClientLayer.OfSearch Get sys p _ _ Hp HG).
  unfold ClientLayer.deferred_Close; cbn [fst snd].
  unfold ClientLayer.cbind at 1, ClientLayer.conn_Search.
  change (Conn h) with (Some id); cbv beta iota.
  fold cfg; rewrite Hsr.
  destruct sr as [[|e0 [|e1 l]] | e]; cbv beta iota.
  - unfold ClientLayer.cret.
    rewrite (on_pool_again _ ClientLayer.OfSearch _ s1 sys _ _ HC).
    eexists; split; [reflexivity | ].
    simpl; rewrite Hstore, Hpool, Hcalls, Hdisp; repeat split.
  - unfold ClientLayer.cret.
    rewrite (on_pool_again _ ClientLayer.OfSearch _ s1 sys _ _ HC).
    eexists; split; [reflexivity | ].
    simpl; rewrite Hstore, Hpool, Hcalls, Hdisp; repeat split.
  - unfold ClientLayer.cret.
    rewrite (on_pool_again _ ClientLayer.OfSearch _ s1 sys _ _ HC).
    eexists; split; [reflexivity | ].
    simpl; rewrite Hstore, Hpool, Hcalls, Hdisp; repeat split.
  - assert (HA : AutoClose (Some h) (Some e) s1 = (Ret (Some h), s1)).
    { apply AutoClose_no_match; intros code Hin.
      exact (Hno e code eq_refl Hin). }
    unfold ClientLayer.cret at 1; cbv beta iota.
    unfold ClientLayer.cbind at 1.
    rewrite (on_pool_again _ ClientLayer.OfSearch _ s1 sys _ _ HA).
    unfold ClientLayer.cret; cbv beta iota.
    rewrite (on_pool_again _ ClientLayer.OfSearch _ s1 _ _ _ HC).
    eexists; split; [reflexivity | ].
    simpl; rewrite Hstore, Hpool, Hcalls, Hdisp; repeat split.
Qed.

Lemma GetUser_returns_the_connection_witness :
  let sys := ClientSamples.ready in
  let cfg := ClientLayer.Config (ClientLayer.client sys) in
  exists sys' : ClientLayer.Sys,
    ClientLayer.GetUser ClientSamples.directory "fry" sys =
      (Ret match @inl _ error [ClientSamples.fry] with
           | inr e => (ClientLayer.no_entries, Some e)
           | inl [] => (ClientLayer.no_entries, Some ClientLayer.ErrNotFound)
           | inl [e0] => (ClientLayer.user_attributes cfg e0, None)
           | inl (_ :: _ :: _) =>
               (ClientLayer.no_entries, Some ClientLayer.ErrNotUnique)
           end, sys') /\
    buf (ClientLayer.searchStore sys') = [Some 1] ++ [Some 0] /\
    ClientLayer.searchPool (ClientLayer.client sys') =
      ClientLayer.searchPool (ClientLayer.client sys) /\
    ClientLayer.bindPool (ClientLayer.client sys') =
      ClientLayer.bindPool (ClientLayer.client sys) /\
    ClientLayer.bindStore sys' = ClientLayer.bindStore sys /\
    factory_calls (ClientLayer.outside sys') =
      factory_calls (ClientLayer.outside sys) /\
    disposed (ClientLayer.outside sys') = disposed (ClientLayer.outside sys).
Proof.
  intros sys cfg.
  refine (GetUser_returns_the_connection ClientSamples.directory "fry" sys
            _ 0 [Some 1] (inl [ClientSamples.fry]) eq_refl _ _ _ _ _ _ _).
  - reflexivity.
  - intros _; split; [reflexivity | discriminate].
  - unfold within_cap; simpl; lia.
  - reflexivity.
  - reflexivity.
  - reflexivity.
  - intros e code H; discriminate H.
Defined.

Lemma AutoClose_match (h : PoolConn) (err : option error) (s : State) :
  has_logger s ->
  existsb (IsErrorWithCode err) (pc_closeAt h) = true ->
  AutoClose (Some h) err s =
  (Ret (Some (with_unusable true h)),
   logged DebugLevel "Marking LDAP Connection as Unusable due to code %d" s).
Proof.
  intros Hl Hex.
  assert (Hrange : forall codes,
             existsb (IsErrorWithCode err) codes = true ->
             AutoClose_range h err codes s =
             (Ret (with_unusable true h),
              logged DebugLevel "Marking LDAP Connection as Unusable due to code %d" s)).
  { induction codes as [|code rest IH]; simpl; [discriminate | ].
    destruct (IsErrorWithCode err code); simpl.
    - intros _.
      rewrite (bind_ret_eq _ _ _ _ _ _ _ (logf_has_logger s _ _ Hl)); reflexivity.
    - exact IH. }
  unfold AutoClose, AutoClose_body; rewrite (Hrange _ Hex); reflexivity.
Qed.

(** [GetUser] when the search fails with an LDAP error whose code is one
    of the codes of the pool, as a network error (200) is for the pools of
    [InitClientPool], on a search pool that has an owner to log through
    and whose factory returns a connection at its next invocation:
    [GetUser] returns that error; the connection is closed instead of
    going back to the store, and the connection from the factory takes its
    place there. *)
Theorem GetUser_discards_broken_connection
    (dir : ClientLayer.Directory) (username : string) (sys : ClientLayer.Sys)
    (p : channelPool) (fn : PoolFactory) (id r : ConnId) (rest : list Client)
    (rc : Z) :
  ClientLayer.searchPool (ClientLayer.client sys) = Some p ->
  let s := ClientLayer.view ClientLayer.OfSearch p sys in
  let cfg := ClientLayer.Config (ClientLayer.client sys) in
  is_open s ->
  chan_inv s ->
  within_cap s ->
  has_logger s ->
  buf (store (world s)) = Some id :: rest ->
  passes_check s id = true ->
  factory p = Some fn ->
  next_result fn s = (Some r, None) ->
  ClientLayer.Search dir id (ClientLayer.user_request dir cfg username) =
    inr (LdapError rc) ->
  In rc (closeAt p) ->
  exists sys' : ClientLayer.Sys,
    ClientLayer.GetUser dir username sys =
      (Ret (ClientLayer.no_entries, Some (LdapError rc)), sys') /\
    buf (ClientLayer.searchStore sys') = rest ++ [Some r] /\
    disposed (ClientLayer.outside sys') =
      disposed (ClientLayer.outside sys) ++ [id] /\
    factory_calls (ClientLayer.outside sys') =
      S (factory_calls (ClientLayer.outside sys)) /\
    ClientLayer.searchPool (ClientLayer.client sys') = Some p /\
    ClientLayer.bindPool (ClientLayer.client sys') =
      ClientLayer.bindPool (ClientLayer.client sys) /\
    ClientLayer.bindStore sys' = ClientLayer.bindStore sys.
Proof.
  intros Hp s cfg Ho Hinv Hcap Hl Hb Hpass Hf Hnext Hsr Hin.
  destruct (Get_passing_head s id rest Ho Hb Hpass)
    as (s1 & HG & Hpool & Hstore & Hcalls & Hdisp & _ & _).
  assert (Hps : pool s = p) by reflexivity.
  rewrite Hps in HG, Hpool.
  destruct (Hinv Ho) as [Hc Hfn].
  unfold is_open in Ho; rewrite Hps in Ho.
  set (h := {| Conn := Some id; unusable := false; pc_closeAt := closeAt p |}) in *.
  set (s1a := logged DebugLevel "Marking LDAP Connection as Unusable due to code %d" s1).
  assert (Hl1 : has_logger s1).
  { unfold has_logger; rewrite Hpool; exact Hl. }
  assert (HA : AutoClose (Some h) (Some (LdapError rc)) s1 =
               (Ret (Some (with_unusable true h)), s1a)).
  { apply AutoClose_match; [exact Hl1 | ].
    apply existsb_exists; exists rc; split; [exact Hin | apply Z.eqb_refl]. }
  assert (Hinv1 : chan_inv s1a).
  { intros _; unfold s1a; simpl; rewrite Hstore, Hpool; simpl.
    split; [exact Hc | rewrite Hf; discriminate]. }
  assert (Hf1 : factory (pool s1a) = Some fn).
  { unfold s1a; simpl; rewrite Hpool; exact Hf. }
  assert (Hn1 : next_result fn s1a = (Some r, None)).
  { rewrite <- Hnext; unfold next_result, s1a; simpl.
    rewrite Hpool, Hcalls; reflexivity. }
  pose proof (Close_unusable_replaces (with_unusable true h) s1a fn r Hl1 Hinv1 Hf1 Hn1)
    as HC.
  assert (HC' : PoolConn_Close (Some (with_unusable true h)) s1a =
                (Ret tt,
                 released r (invoked (wrapped_disposed (with_unusable true h)
                   (logged InfoLevel "Closing unusable connection" s1a)))))
    by exact HC.
  clear HC.
  unfold ClientLayer.GetUser, ClientLayer.cbind at 1, ClientLayer.cgets.
  unfold ClientLayer.cbind at 1.
  rewrite (on_pool_run _ ClientLayer.OfSearch Get sys p _ _ Hp HG).
  unfold ClientLayer.deferred_Close; cbn [fst snd].
  unfold ClientLayer.cbind at 1, ClientLayer.conn_Search.
  change (Conn h) with (Some id); cbv beta iota.
  fold cfg; rewrite Hsr.
  unfold ClientLayer.cret at 1; cbv beta iota.
  unfold ClientLayer.cbind at 1.
  rewrite (on_pool_again _ ClientLayer.OfSearch _ s1 sys _ _ HA).
  unfold ClientLayer.cret; cbv beta iota.
  rewrite (on_pool_again _ ClientLayer.OfSearch _ s1a _ _ _ HC').
  eexists; split; [reflexivity | ].
  assert (Hroom : Nat.ltb (length rest) (cap (ClientLayer.searchStore sys)) = true).
  { unfold within_cap in Hcap; rewrite Hb in Hcap; simpl in Hcap.
    apply Nat.ltb_lt; lia. }
  unfold released, has_room, wrapped_disposed; simpl.
  rewrite Hpool, Ho, Hstore; simpl; rewrite Hroom; simpl.
  rewrite Hstore, Hcalls, Hdisp; simpl.
  repeat split.
  rewrite Hpool; reflexivity.
Qed.

Lemma GetUser_discards_broken_connection_witness :
  let sys := ClientSamples.ready in
  exists sys' : ClientLayer.Sys,
    ClientLayer.GetUser ClientSamples.directory "lost" sys =
      (Ret (ClientLayer.no_entries, Some (LdapError 200)), sys') /\
    buf (ClientLayer.searchStore sys') = [Some 1] ++ [Some 3] /\
    disposed (ClientLayer.outside sys') =
      disposed (ClientLayer.outside sys) ++ [0] /\
    factory_calls (ClientLayer.outside sys') =
      S (factory_calls (ClientLayer.outside sys)) /\
    ClientLayer.searchPool (ClientLayer.client sys') =
      ClientLayer.searchPool (ClientLayer.client sys) /\
    ClientLayer.bindPool (ClientLayer.client sys') =
      ClientLayer.bindPool (ClientLayer.client sys) /\
    ClientLayer.bindStore sys' = ClientLayer.bindStore sys.
Proof.
  intros sys.
  refine (GetUser_discards_broken_connection ClientSamples.directory "lost" sys
            _ _ 0 3 [Some 1] 200 eq_refl _ _ _ _ _ _ eq_refl _ _ _).
  - reflexivity.
  - intros _; split; [reflexivity | discriminate].
  - unfold within_cap; simpl; lia.
  - unfold has_logger; simpl; discriminate.
  - reflexivity.
  - reflexivity.
  - reflexivity.
  - reflexivity.
  - left; reflexivity.
Defined.

(** ** The attributes of a user *)

Lemma fold_attributes_lookup (e : ClientLayer.Entry) (attrs : list string) :
  forall (m : ClientLayer.StringMap) (k : string),
    fold_left
      (fun m0 attr => ClientLayer.map_set attr (ClientLayer.GetAttributeValue e attr) m0)
      attrs m k =
    if existsb (String.eqb k) attrs
    then Some (ClientLayer.GetAttributeValue e k)
    else m k.
Proof.
  induction attrs as [|a attrs IH]; intros m k; simpl; [reflexivity | ].
  rewrite IH; unfold ClientLayer.map_set.
  destruct (existsb (String.eqb k) attrs); [rewrite orb_true_r; reflexivity | ].
  rewrite orb_false_r.
  destruct (String.eqb_spec k a) as [-> | _]; reflexivity.
Qed.

(** The map that [GetUser] returns for the entry it found: under [dn] the
    DN of the entry, also when [dn] is one of the configured attributes;
    under every other configured attribute what the entry answers for it;
    and no other key. *)
Theorem user_attributes_lookup (cfg : ClientLayer.LdapConfig) (e : ClientLayer.Entry) :
  ClientLayer.user_attributes cfg e "dn"%string = Some (ClientLayer.DN e) /\
  (forall k : string,
     k <> "dn"%string -> In k (ClientLayer.Attributes cfg) ->
     ClientLayer.user_attributes cfg e k = Some (ClientLayer.GetAttributeValue e k)) /\
  (forall k : string,
     k <> "dn"%string -> ~ In k (ClientLayer.Attributes cfg) ->
     ClientLayer.user_attributes cfg e k = None).
Proof.
  unfold ClientLayer.user_attributes.
  split; [reflexivity | split]; intros k Hk Hin;
    unfold ClientLayer.map_set at 1;
    destruct (String.eqb_spec k "dn"%string) as [Heq | _]; try contradiction;
    rewrite fold_attributes_lookup.
  - assert (Hex : existsb (String.eqb k) (ClientLayer.Attributes cfg) = true).
    { apply existsb_exists; exists k; split; [exact Hin | apply String.eqb_refl]. }
    rewrite Hex; reflexivity.
  - destruct (existsb (String.eqb k) (ClientLayer.Attributes cfg)) eqn:Hex;
      [ | reflexivity].
    apply existsb_exists in Hex; destruct Hex as (x & Hx & Hkx).
    apply String.eqb_eq in Hkx; subst x; contradiction.
Qed.

(** ** Authentication *)

Ltac run_out :=
  repeat match goal with
         | |- context [ClientLayer.on_pool ?k ?m ?x] =>
             destruct (ClientLayer.on_pool k m x) as [[? | ? | ] ?]
         end;
  cbv beta iota.

Lemma GetUser_success_inv
    (dir : ClientLayer.Directory) (username : string)
    (sys sys' : ClientLayer.Sys) (m : ClientLayer.StringMap) :
  ClientLayer.GetUser dir username sys = (Ret (m, None), sys') ->
  exists (id : ConnId) (entry : ClientLayer.Entry),
    ClientLayer.Search dir id
      (ClientLayer.user_request dir (ClientLayer.Config (ClientLayer.client sys))
                                username) = inl [entry] /\
    m = ClientLayer.user_attributes (ClientLayer.Config (ClientLayer.client sys)) entry.
Proof.
  unfold ClientLayer.GetUser, ClientLayer.cbind at 1, ClientLayer.cgets.
  unfold ClientLayer.cbind at 1.
  destruct (ClientLayer.on_pool ClientLayer.OfSearch Get sys)
    as [[[c er] | why | ] sys1]; try discriminate.
  unfold ClientLayer.deferred_Close; cbn [fst snd].
  destruct er as [e|].
  - unfold ClientLayer.cbind at 1, ClientLayer.cret.
    run_out; intros H; inversion H.
  - unfold ClientLayer.cbind at 1, ClientLayer.conn_Search.
    destruct c as [h|]; [destruct (Conn h) as [id|] | ].
    + unfold ClientLayer.cret at 1.
      destruct (ClientLayer.Search dir id _) as [[|e0 [|e1 l]] | e] eqn:HS;
        unfold ClientLayer.cbind, ClientLayer.cret;
        run_out; intros H; inversion H; subst.
      exists id, e0; split; [exact HS | reflexivity].
    + unfold ClientLayer.cpanic; run_out; intros H; inversion H.
    + unfold ClientLayer.cpanic; run_out; intros H; inversion H.
Qed.



(** ** Groups *)

(** When the attribute named by [GroupMemberAttribute] is neither [dn] nor
    one of the configured attributes, the map of a user that was found has
    no such key: [GetUserGroups] returns [ErrAttributeNotFound] wrapped
    with the name of the attribute and no map, in the state in which
    [GetUser] returned, without a second search. *)
Theorem GetUserGroups_member_attribute_not_fetched
    (dir : ClientLayer.Directory) (username : string)
    (sys sys1 : ClientLayer.Sys) (m : ClientLayer.StringMap) :
  let cfg := ClientLayer.Config (ClientLayer.client sys) in
  ClientLayer.GetUser dir username sys = (Ret (m, None), sys1) ->
  ClientLayer.GroupMemberAttribute cfg <> "dn"%string ->
  ~ In (ClientLayer.GroupMemberAttribute cfg) (ClientLayer.Attributes cfg) ->
  ClientLayer.GetUserGroups dir username sys =
    (Ret (None,
          Some (ErrorString
                  (ClientLayer.GroupMemberAttribute cfg ++ ": attribute not found"))),
     sys1).
Proof.
  intros cfg HG Hdn Hnot.
  destruct (GetUser_success_inv dir username sys sys1 m HG) as (id & entry & _ & Hm).
  unfold ClientLayer.GetUserGroups, ClientLayer.cbind at 1, ClientLayer.cgets.
  unfold ClientLayer.cbind at 1; rewrite HG; cbn [fst snd].
  fold cfg.
  assert (Hnone : m (ClientLayer.GroupMemberAttribute cfg) = None).
  { rewrite Hm; fold cfg; unfold ClientLayer.user_attributes.
    unfold ClientLayer.map_set at 1.
    destruct (String.eqb_spec (ClientLayer.GroupMemberAttribute cfg) "dn"%string)
      as [Heq | _]; [contradiction | ].
    rewrite fold_attributes_lookup.
    destruct (existsb (String.eqb (ClientLayer.GroupMemberAttribute cfg))
                      (ClientLayer.Attributes cfg)) eqn:Hex; [ | reflexivity].
    apply existsb_exists in Hex; destruct Hex as (x & Hx & Hkx).
    apply String.eqb_eq in Hkx; subst x; contradiction. }
  rewrite Hnone; reflexivity.
Qed.

Lemma GetUserGroups_member_attribute_not_fetched_witness :
  let sys :=
    {| ClientLayer.client :=
         {| ClientLayer.Config :=
              {| ClientLayer.Host := "xubu"; ClientLayer.Port := 389;
                 ClientLayer.Attributes := ["cn"%string; "uid"%string];
                 ClientLayer.AttributeMap := []; ClientLayer.EmailAttributes := [];
                 ClientLayer.Base := "dc=planetexpress,dc=com";
                 ClientLayer.BindDN := ""; ClientLayer.BindPassword := "";
                 ClientLayer.GroupFilter := "(member=%s)";
                 ClientLayer.GroupNameAttribute := "cn";
                 ClientLayer.GroupMemberAttribute := "memberOf";
                 ClientLayer.ServerName := ""; ClientLayer.UserFilter := "(uid=%s)";
                 ClientLayer.Uid := "uid"; ClientLayer.UseSSL := false;
                 ClientLayer.InsecureSkipVerify := false; ClientLayer.SkipTLS := true;
                 ClientLayer.LogLevel := "info" |};
            ClientLayer.ClientCertificates :=
              ClientLayer.ClientCertificates (ClientLayer.client ClientSamples.ready);
            ClientLayer.searchPool :=
              ClientLayer.searchPool (ClientLayer.client ClientSamples.ready);
            ClientLayer.bindPool :=
              ClientLayer.bindPool (ClientLayer.client ClientSamples.ready) |};
       ClientLayer.searchStore := ClientLayer.searchStore ClientSamples.ready;
       ClientLayer.bindStore := ClientLayer.bindStore ClientSamples.ready;
       ClientLayer.outside := ClientLayer.outside ClientSamples.ready |} in
  ClientLayer.GetUserGroups ClientSamples.directory "fry" sys =
    (Ret (None, Some (ErrorString "memberOf: attribute not found")),
     snd (ClientLayer.GetUser ClientSamples.directory "fry" sys)).
Proof.
  intros sys.
  refine (GetUserGroups_member_attribute_not_fetched ClientSamples.directory "fry"
            sys _ (ClientLayer.user_attributes
                     (ClientLayer.Config (ClientLayer.client sys)) ClientSamples.fry)
            _ _ _).
  - vm_compute; reflexivity.
  - discriminate.
  - simpl; intros [H | [H | []]]; discriminate H.
Defined.

(** ** The statements above at sample inputs *)


Lemma clientPoolFactory_StartTLS_skips_verification_witness :
  let lc := ClientLayer.client ClientSamples.ready in
  let config := {| ClientLayer.tls_InsecureSkipVerify := true;
                   ClientLayer.tls_ServerName := "";
                   ClientLayer.tls_Certificates := [] |} in
  ClientLayer.InsecureSkipVerify (ClientLayer.Config lc) = false /\
  In (ClientLayer.EvStartTLS 5 config)
     (snd (ClientLayer.clientPoolFactory_run ClientSamples.net_ok lc SharedPool 5)) /\
  ClientLayer.tls_InsecureSkipVerify config = true /\
  ClientLayer.tls_ServerName config = ""%string /\
  ClientLayer.tls_Certificates config = [].
Proof.
  intros lc config.
  assert (Hin : In (ClientLayer.EvStartTLS 5 config)
                   (snd (ClientLayer.clientPoolFactory_run
                           ClientSamples.net_ok lc SharedPool 5))).
  { vm_compute; right; left; reflexivity. }
  split; [vm_compute; reflexivity | split; [exact Hin | ]].
  exact (proj1 (clientPoolFactory_StartTLS_skips_verification
                  ClientSamples.net_ok lc SharedPool 5) 5 config Hin).
Defined.

Lemma clientPoolFactory_binds_shared_only_witness :
  let lc := ClientLayer.client ClientSamples.ready in
  let dn := ClientLayer.BindDN ClientSamples.config in
  let password := ClientLayer.BindPassword ClientSamples.config in
  In (ClientLayer.EvBind 5 dn password)
     (snd (ClientLayer.clientPoolFactory_run ClientSamples.net_ok lc SharedPool 5)) /\
  (SharedPool = SharedPool /\
   fst (ClientLayer.clientPoolFactory_run ClientSamples.net_ok lc SharedPool 5)
     = (Some 5, None) /\
   ClientLayer.BindDN (ClientLayer.Config lc) <> ""%string /\
   ClientLayer.BindPassword (ClientLayer.Config lc) <> ""%string /\
   5 = 5 /\
   dn = ClientLayer.BindDN (ClientLayer.Config lc) /\
   password = ClientLayer.BindPassword (ClientLayer.Config lc)).
Proof.
  intros lc dn password.
  assert (Hin : In (ClientLayer.EvBind 5 dn password)
                   (snd (ClientLayer.clientPoolFactory_run
                           ClientSamples.net_ok lc SharedPool 5))).
  { vm_compute; right; right; left; reflexivity. }
  split; [exact Hin | ].
  exact (proj1 (clientPoolFactory_binds_shared_only
                  ClientSamples.net_ok lc SharedPool 5 5 dn password) Hin).
Defined.

Lemma user_attributes_lookup_witness :
  "cn"%string <> "dn"%string /\
  In "cn"%string (ClientLayer.Attributes ClientSamples.config) /\
  ClientLayer.user_attributes ClientSamples.config ClientSamples.fry "cn"%string =
    Some (ClientLayer.GetAttributeValue ClientSamples.fry "cn"%string).
Proof.
  assert (Hne : "cn"%string <> "dn"%string) by discriminate.
  assert (Hin : In "cn"%string (ClientLayer.Attributes ClientSamples.config))
    by (left; reflexivity).
  split; [exact Hne | split; [exact Hin | ]].
  exact (proj1 (proj2 (user_attributes_lookup ClientSamples.config ClientSamples.fry))
               "cn"%string Hne Hin).
Defined.

(** * Pools made with a nil client *)

(** C7, as stated, fails on a pool made with a nil client: the handle that
    [Get] returns is given a signal that matches the code of the pool, and
    [AutoClose] returns with the handle not marked; its body panicked at
    the logger, before the write of the flag, and the panic was
    recovered. *)
Lemma AutoClose_without_logger_does_not_mark :
  let s := snd (Get Samples.orphan) in
  let h := Samples.handle_out in
  let err := Some (LdapError 200) in
  fst (Get Samples.orphan) = Ret (Some h, None) /\
  parentClient (pool s) = None /\
  matches err (pc_closeAt h) /\
  unusable h = false /\
  AutoClose (Some h) err s =
    (Ret (Some h),
     {| pool := pool s;
        world := with_logs
                   (logs (world s) ++
                    [(DebugLevel, "rescued panic in (p *PoolConn) AutoClose %s"%string)])
                   (world s) |}) /\
  ~ (unusable h = true <-> matches err (pc_closeAt h)).
Proof.
  intros s h err.
  assert (Hm : matches err (pc_closeAt h)).
  { exists 200%Z; split; [left; reflexivity | reflexivity]. }
  split; [reflexivity | ].
  split; [reflexivity | ].
  split; [exact Hm | ].
  split; [reflexivity | ].
  split; [reflexivity | ].
  intros [_ H]; specialize (H Hm); discriminate H.
Qed.

(** C8, as stated, fails on a pool made with a nil client: with liveness
    checks on and a stored connection that fails the probe, [Get] panics
    at the logger; the stale connection has left the store and is not
    closed, and the factory is not invoked. *)
Lemma Get_dead_connection_without_logger_panics :
  let s := Samples.orphan_stale in
  is_open s /\
  aliveChecks (pool s) = true /\
  buf (store (world s)) = [Some 0] /\
  alive (world s) 0 = false /\
  parentClient (pool s) = None /\
  exists s' : State,
    Get s = (Panic NilDereference, s') /\
    buf (store (world s')) = [] /\
    disposed (world s') = [] /\
    factory_calls (world s') = factory_calls (world s).
Proof.
  intros s.
  repeat (split; [reflexivity | ]).
  eexists; split; [reflexivity | ].
  repeat split.
Qed.
